(** * _addnl.py: prepend two blank lines to the text files of a directory

    A shallow embedding of [insert_lines_to_files] and of the newline
    choice of [parse_arguments] in [GitHub Desktop/_addnl.py], together
    with the parts of the Python runtime the function relies on: the
    strict UTF-8 codec, the universal-newlines translation that a text
    file opened for reading with the default [newline] argument applies,
    [str.lower], [str.endswith], and a directory of files.

    The function is embedded twice. The first embedding runs it in a plain
    environment: every name has a file of its own, [print] succeeds, and a
    file that opens for writing takes all of its bytes. The module [Env]
    runs it in full: names may be links to one file, [print] may raise,
    and a write may fail after the file was truncated. The lemma
    [plain_run_simulates] shows that the first embedding is the second
    one in an environment without links, console failures and late write
    failures. The f-strings of lines 38 and 47 hold a backslash in an
    expression, so the program needs Python 3.12 or later. *)

From Stdlib Require Import NArith Lia.
From Stdlib.Strings Require Import Ascii String Byte.
From stdpp Require Import gmap strings list fin_maps.

Local Open Scope N_scope.

(** ** Text and bytes *)

(** A Python [str] read from or written to a file: a list of code points. *)
Definition text := list N.

Definition LF : N := 10.
Definition CR : N := 13.


(** *** The strict UTF-8 codec ([encoding='utf-8'], [errors='strict'])

    The decoder accepts exactly the well-formed sequences: no overlong
    forms, no surrogates, nothing above U+10FFFF, no truncated sequence.
    The shifts and masks of the C decoder are written as multiplications
    and remainders by powers of two. *)

Definition is_continuation (b : N) : bool := (0x80 <=? b) && (b <=? 0xBF).

Fixpoint utf8_decode_N (bs : list N) : option text :=
  match bs with
  | [] => Some []
  | b0 :: t0 =>
    if b0 <? 0x80 then cons b0 <$> utf8_decode_N t0
    else if b0 <? 0xC2 then None
    else if b0 <? 0xE0 then
      match t0 with
      | b1 :: t1 =>
        if is_continuation b1
        then cons ((b0 - 0xC0) * 64 + (b1 - 0x80)) <$> utf8_decode_N t1
        else None
      | _ => None
      end
    else if b0 <? 0xF0 then
      match t0 with
      | b1 :: b2 :: t2 =>
        if is_continuation b1 && is_continuation b2
           && negb ((b0 =? 0xE0) && (b1 <? 0xA0))
           && negb ((b0 =? 0xED) && (0xA0 <=? b1))
        then cons ((b0 - 0xE0) * 4096 + (b1 - 0x80) * 64 + (b2 - 0x80))
               <$> utf8_decode_N t2
        else None
      | _ => None
      end
    else if b0 <? 0xF5 then
      match t0 with
      | b1 :: b2 :: b3 :: t3 =>
        if is_continuation b1 && is_continuation b2 && is_continuation b3
           && negb ((b0 =? 0xF0) && (b1 <? 0x90))
           && negb ((b0 =? 0xF4) && (0x90 <=? b1))
        then cons ((b0 - 0xF0) * 262144 + (b1 - 0x80) * 4096
                   + (b2 - 0x80) * 64 + (b3 - 0x80))
               <$> utf8_decode_N t3
        else None
      | _ => None
      end
    else None
  end.

Definition utf8_encode_cp (c : N) : option (list N) :=
  if c <? 0x80 then Some [c]
  else if c <? 0x800 then Some [0xC0 + c / 64; 0x80 + c mod 64]
  else if c <? 0x10000 then
    if (0xD800 <=? c) && (c <=? 0xDFFF) then None
    else Some [0xE0 + c / 4096; 0x80 + (c / 64) mod 64; 0x80 + c mod 64]
  else if c <? 0x110000 then
    Some [0xF0 + c / 262144; 0x80 + (c / 4096) mod 64;
          0x80 + (c / 64) mod 64; 0x80 + c mod 64]
  else None.

Fixpoint utf8_encode_N (t : text) : option (list N) :=
  match t with
  | [] => Some []
  | c :: r =>
    match utf8_encode_cp c, utf8_encode_N r with
    | Some b, Some bs => Some (b ++ bs)
    | _, _ => None
    end
  end.

Definition byte_of_N (n : N) : byte :=
  match Byte.of_N n with Some b => b | None => x00 end.

(** [bytes.decode('utf-8')]: [None] stands for [UnicodeDecodeError]. *)
Definition utf8_decode (bs : list byte) : option text :=
  utf8_decode_N (map Byte.to_N bs).

(** [str.encode('utf-8')]: [None] stands for [UnicodeEncodeError]. *)
Definition utf8_encode (t : text) : option (list byte) :=
  map byte_of_N <$> utf8_encode_N t.

(** *** Universal newlines

    [open(path, 'r', encoding='utf-8')] leaves [newline] at its default
    [None]: on input every ["\r\n"] and every remaining ["\r"] is turned
    into ["\n"] before [read()] returns. *)
Fixpoint universal_newlines (t : text) : text :=
  match t with
  | [] => []
  | c :: r =>
    if c =? CR then
      match r with
      | d :: r' => if d =? LF then LF :: universal_newlines r'
                   else LF :: universal_newlines r
      | [] => [LF]
      end
    else c :: universal_newlines r
  end.

(** ** File names

    A file name is a [string], one character per code point below 256.
    [str.lower] on that range maps A-Z and the capital letters of the
    Latin-1 block (U+00C0-U+00DE except the multiplication sign U+00D7)
    32 places up and leaves every other code point alone. *)
Definition lower_ascii (c : ascii) : ascii :=
  let n := N_of_ascii c in
  if ((65 <=? n) && (n <=? 90))
     || ((192 <=? n) && (n <=? 222) && negb (n =? 215))
  then ascii_of_N (n + 32) else c.

Fixpoint lower (s : string) : string :=
  match s with
  | EmptyString => EmptyString
  | String c r => String (lower_ascii c) (lower r)
  end.

(** [s.endswith(suffix)]: the last [len(suffix)] characters of [s], when it
    has that many, are compared with [suffix]. *)
Definition endswith (s suffix : string) : bool :=
  (String.length suffix <=? String.length s)%nat
  && String.eqb
       (substring (String.length s - String.length suffix)
                  (String.length suffix) s)
       suffix.

(** ** The directory, the console and exceptions

    The plain environment: one file per name, a console that takes every
    line. The module [Env] below lifts both restrictions. *)

(** A regular file: its bytes, the message of the [OSError] that opening
    or reading it raises, if any, and the message of the [OSError] that
    opening it for writing raises before anything is truncated, if any
    (permission denied and the like). *)
Record file := File {
  content : list byte;
  read_error : option string;
  write_error : option string
}.

(** An entry of the target directory. A subdirectory carries its own
    entries; [Special] stands for everything [os.path.isfile] rejects
    besides directories (sockets, devices, dangling symbolic links). *)
#[warnings="-register-all"]
Inductive node :=
| Regular (f : file)
| Directory (children : list (string * node))
| Special.

(** What the program prints, one constructor per [print] call of the
    source, with the values its f-string interpolates. *)
Inductive message :=
| MsgProcessed (filename label : string)
| MsgSkippedNonText (filename : string)
| MsgError (filename err : string)
| MsgFinished (processed_files : nat)
| MsgNewlineUsed (label : string)
| MsgNoDirectory
| MsgWorking.

(** The state a run acts on: the entries of the target directory by name
    ([os.path.join(directory, filename)] is one path per name) and the
    lines printed so far. *)
Record world := World {
  files : gmap string node;
  stdout : list message
}.

Inductive exn :=
| UnicodeDecodeError
| UnicodeEncodeError
| OSError (msg : string).

(** [str(e)] *)
Definition str_exn (e : exn) : string :=
  match e with
  | UnicodeDecodeError => "'utf-8' codec can't decode"
  | UnicodeEncodeError => "'utf-8' codec can't encode"
  | OSError msg => msg
  end%string.

(** ** A state and exception monad

    A statement either returns or raises; the effects it had on the world
    before raising stay. *)
Inductive outcome (A : Type) :=
| Return (a : A)
| Raise (e : exn).
Arguments Return {A} a.
Arguments Raise {A} e.

Definition M (A : Type) : Type := world → outcome A * world.

Definition ret {A} (a : A) : M A := λ w, (Return a, w).
Definition raise {A} (e : exn) : M A := λ w, (Raise e, w).
Definition bind {A B} (m : M A) (k : A → M B) : M B :=
  λ w, match m w with
       | (Return a, w') => k a w'
       | (Raise e, w') => (Raise e, w')
       end.
(** [try: body / except ...: handler e] *)
Definition try_except {A} (body : M A) (handler : exn → M A) : M A :=
  λ w, match body w with
       | (Return a, w') => (Return a, w')
       | (Raise e, w') => handler e w'
       end.

Notation "'let*' x ':=' m 'in' k" := (bind m (λ x, k))
  (at level 10, x name, m at level 100, k at level 200).
Notation "m ';;;' k" := (bind m (λ _, k))
  (at level 100, right associativity).

(** *** Primitives of the runtime, in the plain environment *)

(** [print(...)] on a console that takes the line; [Env.print] is the
    one that can raise. *)
Definition print (m : message) : M unit :=
  λ w, (Return tt, {| files := files w; stdout := stdout w ++ [m] |}).

Definition os_path_isfile (filepath : string) : M bool :=
  λ w, (Return match files w !! filepath with
               | Some (Regular _) => true
               | _ => false
               end, w).

(** [with open(filepath, 'r', encoding='utf-8') as f: f.read()] *)
Definition read_text (filepath : string) : M text :=
  λ w, match files w !! filepath with
       | Some (Regular f) =>
         match read_error f with
         | Some msg => (Raise (OSError msg), w)
         | None =>
           match utf8_decode (content f) with
           | Some t => (Return (universal_newlines t), w)
           | None => (Raise UnicodeDecodeError, w)
           end
         end
       | Some (Directory _) => (Raise (OSError "Is a directory"), w)
       | Some Special => (Raise (OSError "No such device or address"), w)
       | None => (Raise (OSError "No such file or directory"), w)
       end.

Definition set_content (filepath : string) (f : file) (bs : list byte)
    (w : world) : world :=
  {| files := <[filepath := Regular {| content := bs;
                                      read_error := read_error f;
                                      write_error := write_error f |}]>
                (files w);
     stdout := stdout w |}.

(** [with open(filepath, 'w', encoding='utf-8', newline='') as f:
    f.write(s)]: opening truncates the file (or creates it), [newline='']
    writes every character as it is, and the text is encoded on the way
    out. Here a file that opens takes all of its bytes and the bytes
    belong to this name alone; [Env.write_text] has the write that fails
    after truncation and the file reached under several names. *)
Definition write_text (filepath : string) (s : text) : M unit :=
  λ w, match files w !! filepath with
       | Some (Regular f) =>
         match write_error f with
         | Some msg => (Raise (OSError msg), w)
         | None =>
           match utf8_encode s with
           | Some bs => (Return tt, set_content filepath f bs w)
           | None => (Raise UnicodeEncodeError, set_content filepath f [] w)
           end
         end
       | Some (Directory _) => (Raise (OSError "Is a directory"), w)
       | Some Special => (Raise (OSError "No such device or address"), w)
       | None =>
         let f := {| content := []; read_error := None;
                     write_error := None |} in
         match utf8_encode s with
         | Some bs => (Return tt, set_content filepath f bs w)
         | None => (Raise UnicodeEncodeError, set_content filepath f [] w)
         end
       end.

(** [os.linesep] *)
Inductive platform := posix | nt.

Definition os_linesep (p : platform) : text :=
  match p with
  | posix => [LF]
  | nt => [CR; LF]
  end.

(** ** insert_lines_to_files *)

Definition line1 : text := [].
Definition line2 : text := [].

Definition text_extensions : list string := [".txt"; ".md"]%string.

(** Lines 11-16: the terminator of the run. *)
Definition resolve_newline (p : platform) (newline_type : string) : text :=
  if String.eqb newline_type "lf" then [LF]
  else if String.eqb newline_type "crlf" then [CR; LF]
  else os_linesep p.

Definition text_eqb (a b : text) : bool := bool_decide (a = b).

(** ['LF' if nl == '\n' else 'CRLF'] *)
Definition newline_label (nl : text) : string :=
  if text_eqb nl [LF] then "LF" else "CRLF".

(** ['LF (\\n)' if nl == '\n' else 'CRLF (\\r\\n)'] *)
Definition newline_label_long (nl : text) : string :=
  if text_eqb nl [LF] then "LF (\n)" else "CRLF (\r\n)".

(** Line 29: [any(filename.lower().endswith(ext) for ext in
    text_extensions)] *)
Definition has_text_extension (filename : string) : bool :=
  existsb (endswith (lower filename)) text_extensions.

(** Lines 33-39, the body of the [try]; it returns the new value of
    [processed_files]. *)
Definition try_body (nl : text) (filename : string) (processed_files : nat)
    : M nat :=
  let* original_content := read_text filename in
  let new_content := line1 ++ nl ++ line2 ++ nl ++ original_content in
  write_text filename new_content ;;;
  print (MsgProcessed filename (newline_label nl)) ;;;
  ret (S processed_files).

(** Lines 41-44, the two [except] clauses. *)
Definition handlers (filename : string) (processed_files : nat) (e : exn)
    : M nat :=
  match e with
  | UnicodeDecodeError =>
    print (MsgSkippedNonText filename) ;;; ret processed_files
  | _ =>
    print (MsgError filename (str_exn e)) ;;; ret processed_files
  end.

(** Lines 25-44, one iteration of the [for] loop. *)
Definition iteration (nl : text) (filename : string) (processed_files : nat)
    : M nat :=
  let* isfile := os_path_isfile filename in
  if negb isfile then ret processed_files
  else if negb (has_text_extension filename) then ret processed_files
  else try_except (try_body nl filename processed_files)
                  (handlers filename processed_files).

(** Lines 24-44: the loop over the names [os.listdir(directory)] gave. *)
Fixpoint for_loop (nl : text) (listing : list string) (processed_files : nat)
    : M nat :=
  match listing with
  | [] => ret processed_files
  | filename :: rest =>
    let* n := iteration nl filename processed_files in
    for_loop nl rest n
  end.

(** [insert_lines_to_files(directory, newline_type)]. [listing] is what
    [os.listdir(directory)] returns, in the order it returns it; the
    function evaluates it once, before the first iteration. The function
    returns [None]: the number of processed files only shows in the
    summary line it prints. *)
Definition insert_lines_to_files (p : platform) (listing : list string)
    (newline_type : string) : M unit :=
  let nl := resolve_newline p newline_type in
  let* processed_files := for_loop nl listing 0%nat in
  print (MsgFinished processed_files) ;;;
  print (MsgNewlineUsed (newline_label_long nl)).

(** ** The command line *)

(** [parser.add_argument('--newline', choices=['lf', 'crlf', 'system'],
    default='system')]: [None] when the flag is absent; a value outside
    [choices] makes [argparse] exit with status 2. *)
Definition newline_choices : list string := ["lf"; "crlf"; "system"]%string.

Definition parse_newline (flag : option string) : option string :=
  match flag with
  | None => Some "system"%string
  | Some v => if bool_decide (v ∈ newline_choices) then Some v else None
  end.

(** ** One iteration, read off the directory entry

    The two guards of the loop body, and what an iteration does with the
    entry it finds under a name: the entry it leaves, the lines it prints
    and whether it counts the file. The lemmas [iteration_effect] and
    [for_loop_effect] below prove these against the program. *)

Definition is_regular (o : option node) : bool :=
  match o with
  | Some (Regular _) => true
  | _ => false
  end.

(** Lines 27-30: the entry reaches the [try] block. *)
Definition selected (w : world) (filename : string) : bool :=
  is_regular (files w !! filename) && has_text_extension filename.

Definition with_content (f : file) (bs : list byte) : file :=
  {| content := bs; read_error := read_error f;
     write_error := write_error f |}.

Record effect := Effect {
  node_after : option node;
  printed : list message;
  counted : bool
}.

Definition unchanged (o : option node) (out : list message) : effect :=
  {| node_after := o; printed := out; counted := false |}.

Definition effect_of (nl : text) (filename : string) (o : option node)
    : effect :=
  match o with
  | Some (Regular f) =>
    if has_text_extension filename then
      match read_error f with
      | Some msg => unchanged o [MsgError filename msg]
      | None =>
        match utf8_decode (content f) with
        | None => unchanged o [MsgSkippedNonText filename]
        | Some t =>
          match write_error f with
          | Some msg => unchanged o [MsgError filename msg]
          | None =>
            match utf8_encode (nl ++ nl ++ universal_newlines t) with
            | Some bs =>
              {| node_after := Some (Regular (with_content f bs));
                 printed := [MsgProcessed filename (newline_label nl)];
                 counted := true |}
            | None =>
              {| node_after := Some (Regular (with_content f []));
                 printed :=
                   [MsgError filename (str_exn UnicodeEncodeError)];
                 counted := false |}
            end
          end
        end
      end
    else unchanged o []
  | _ => unchanged o []
  end.

(** A text the codec can write. *)
Definition encodable (t : text) : Prop := is_Some (utf8_encode_N t).




(** The world a run leaves. *)
Definition final_world (p : platform) (listing : list string)
    (newline_type : string) (w : world) : world :=
  snd (insert_lines_to_files p listing newline_type w).

Definition reported_totals (out : list message) : list nat :=
  omap (λ m, match m with MsgFinished n => Some n | _ => None end) out.

(** The total of the last summary line on the console. *)
Definition processed_total (p : platform) (listing : list string)
    (newline_type : string) (w : world) : option nat :=
  last (reported_totals (stdout (final_world p listing newline_type w))).

(** A file that opens both ways. *)
Definition plain_file (bs : list byte) : file :=
  {| content := bs; read_error := None; write_error := None |}.

(** ** Sample directories *)

(** One file whose lines end in CR LF: a, CR, LF, b. *)
Definition crlf_directory : world :=
  World {["a.txt"%string := Regular (plain_file [x61; x0d; x0a; x62])]} [].

(** One text file holding hello. *)
Definition hello_directory : world :=
  World {["NOTES.TXT"%string
          := Regular (plain_file (list_byte_of_string "hello"))]} [].


(** A file that does not open for reading. *)
Definition locked_file : file :=
  {| content := [x68; x69];
     read_error := Some "Permission denied"%string;
     write_error := None |}.

(** A text file, a spreadsheet export and a subdirectory that holds a text
    file of its own. *)
Definition mixed_directory : world :=
  World {["a.txt"%string := Regular (plain_file [x68; x69]);
          "data.csv"%string := Regular (plain_file [x31; x2c; x32]);
          "sub"%string
          := Directory [("inner.txt"%string,
                         Regular (plain_file [x78]))]]} [].



(** ** Vocabulary of the further properties *)



(** ** The environment in full: links, a console that can refuse a line,
    writes that fail late

    The definitions above run the function in a plain environment: every
    name of the directory has a file of its own, [print] always succeeds
    and a file that opens for writing takes all of its bytes. The module
    [Env] runs the same lines of the source where none of this is taken
    for granted.
    - A name refers to an inode; two names of the directory, or a name of
      the directory and a name below a subdirectory, may refer to the
      same one (hard links, and symbolic links, which [os.path.isfile]
      and [open] follow).
    - [print] raises when the console cannot take the line
      ([UnicodeEncodeError] for a name or message the encoding of
      [sys.stdout] does not cover, [OSError] for a closed pipe).
    - [open(filepath, 'w')] truncates the file; writing, flushing or
      closing can still raise afterwards and leave the file with a
      prefix of the new bytes. *)
Module Env.

Definition inode := nat.

(** An entry of a directory: the name of a regular file (a hard link, or
    a symbolic link that resolves to one), a subdirectory with its own
    entries, or anything else. *)
#[warnings="-register-all"]
Inductive entry :=
| Ref (i : inode)
| Subdir (children : list (string * entry))
| Other.

Inductive print_failure :=
| CannotEncode
| Broken (msg : string).

Definition exn_of_print_failure (pf : print_failure) : exn :=
  match pf with
  | CannotEncode => UnicodeEncodeError
  | Broken msg => OSError msg
  end.

(** [entries]: the names of the target directory. [store]: the regular
    files of the file system by inode, those below subdirectories
    included. [late_write_error i]: the message of the [OSError] that
    writing, flushing or closing inode [i] raises after it was truncated,
    and how many of the new bytes reached the file before. [print_error
    m]: how printing the line [m] fails, if it does. *)
Record world := World {
  entries : gmap string entry;
  store : gmap inode file;
  late_write_error : inode → option (string * nat);
  print_error : message → option print_failure;
  stdout : list message
}.

Definition M (A : Type) : Type := world → outcome A * world.

Definition ret {A} (a : A) : M A := λ w, (Return a, w).
Definition bind {A B} (m : M A) (k : A → M B) : M B :=
  λ w, match m w with
       | (Return a, w') => k a w'
       | (Raise e, w') => (Raise e, w')
       end.
Definition try_except {A} (body : M A) (handler : exn → M A) : M A :=
  λ w, match body w with
       | (Return a, w') => (Return a, w')
       | (Raise e, w') => handler e w'
       end.

#[local] Notation "'let!' x ':=' m 'in' k" := (bind m (λ x, k))
  (at level 10, x name, m at level 100, k at level 200).
#[local] Notation "m ';;!' k" := (bind m (λ _, k))
  (at level 100, right associativity).

Definition set_store (w : world) (s : gmap inode file) : world :=
  {| entries := entries w; store := s;
     late_write_error := late_write_error w;
     print_error := print_error w; stdout := stdout w |}.

Definition with_line (w : world) (m : message) : world :=
  {| entries := entries w; store := store w;
     late_write_error := late_write_error w;
     print_error := print_error w; stdout := stdout w ++ [m] |}.

Definition print (m : message) : M unit :=
  λ w, match print_error w m with
       | Some pf => (Raise (exn_of_print_failure pf), w)
       | None => (Return tt, with_line w m)
       end.

(** The regular file a name of the directory leads to. *)
Definition resolve (w : world) (filepath : string) : option (inode * file) :=
  match entries w !! filepath with
  | Some (Ref i) =>
    match store w !! i with
    | Some f => Some (i, f)
    | None => None
    end
  | _ => None
  end.

Definition os_path_isfile (filepath : string) : M bool :=
  λ w, (Return match resolve w filepath with
               | Some _ => true
               | None => false
               end, w).

(** [with open(filepath, 'r', encoding='utf-8') as f: f.read()] *)
Definition read_text (filepath : string) : M text :=
  λ w, match entries w !! filepath with
       | Some (Ref i) =>
         match store w !! i with
         | Some f =>
           match read_error f with
           | Some msg => (Raise (OSError msg), w)
           | None =>
             match utf8_decode (content f) with
             | Some t => (Return (universal_newlines t), w)
             | None => (Raise UnicodeDecodeError, w)
             end
           end
         | None => (Raise (OSError "No such file or directory"), w)
         end
       | Some (Subdir _) => (Raise (OSError "Is a directory"), w)
       | Some Other => (Raise (OSError "No such device or address"), w)
       | None => (Raise (OSError "No such file or directory"), w)
       end.

(** The file is open and truncated: encode the text, hand the bytes over,
    close. *)
Definition write_open (i : inode) (f : file) (s : text) : M unit :=
  λ w, match utf8_encode s with
       | None =>
         (Raise UnicodeEncodeError,
          set_store w (<[i := with_content f []]> (store w)))
       | Some bs =>
         match late_write_error w i with
         | Some (msg, k) =>
           (Raise (OSError msg),
            set_store w (<[i := with_content f (take k bs)]> (store w)))
         | None =>
           (Return tt, set_store w (<[i := with_content f bs]> (store w)))
         end
       end.

(** [with open(filepath, 'w', encoding='utf-8', newline='') as f:
    f.write(s)]. A name that leads nowhere yet gets a new file. *)
Definition write_text (filepath : string) (s : text) : M unit :=
  λ w, match entries w !! filepath with
       | Some (Ref i) =>
         match store w !! i with
         | Some f =>
           match write_error f with
           | Some msg => (Raise (OSError msg), w)
           | None => write_open i f s w
           end
         | None => write_open i (plain_file []) s w
         end
       | Some (Subdir _) => (Raise (OSError "Is a directory"), w)
       | Some Other => (Raise (OSError "No such device or address"), w)
       | None =>
         let i := fresh (dom (store w)) in
         write_open i (plain_file []) s
           {| entries := <[filepath := Ref i]> (entries w);
              store := store w;
              late_write_error := late_write_error w;
              print_error := print_error w; stdout := stdout w |}
       end.

(** Lines 33-39. *)
Definition try_body (nl : text) (filename : string) (processed_files : nat)
    : M nat :=
  let! original_content := read_text filename in
  let new_content := line1 ++ nl ++ line2 ++ nl ++ original_content in
  write_text filename new_content ;;!
  print (MsgProcessed filename (newline_label nl)) ;;!
  ret (S processed_files).

(** Lines 41-44: the prints of the handlers are outside the [try]. *)
Definition handlers (filename : string) (processed_files : nat) (e : exn)
    : M nat :=
  match e with
  | UnicodeDecodeError =>
    print (MsgSkippedNonText filename) ;;! ret processed_files
  | _ =>
    print (MsgError filename (str_exn e)) ;;! ret processed_files
  end.

(** Lines 25-44. *)
Definition iteration (nl : text) (filename : string) (processed_files : nat)
    : M nat :=
  let! isfile := os_path_isfile filename in
  if negb isfile then ret processed_files
  else if negb (has_text_extension filename) then ret processed_files
  else try_except (try_body nl filename processed_files)
                  (handlers filename processed_files).

(** Lines 24-44. *)
Fixpoint for_loop (nl : text) (listing : list string) (processed_files : nat)
    : M nat :=
  match listing with
  | [] => ret processed_files
  | filename :: rest =>
    let! n := iteration nl filename processed_files in
    for_loop nl rest n
  end.

(** Lines 6-47, with [listing] what [os.listdir(directory)] returned. *)
Definition insert_lines_to_files (p : platform) (listing : list string)
    (newline_type : string) : M unit :=
  let nl := resolve_newline p newline_type in
  let! processed_files := for_loop nl listing 0%nat in
  print (MsgFinished processed_files) ;;!
  print (MsgNewlineUsed (newline_label_long nl)).

(** *** Reading an environment *)

(** The console takes every line. *)
Definition console_accepts (w : world) : Prop :=
  ∀ m, print_error w m = None.

(** No two names of the listing lead to the same file. *)
Definition link_free (w : world) (listing : list string) : Prop :=
  ∀ n1 n2 i, n1 ∈ listing → n2 ∈ listing →
    entries w !! n1 = Some (Ref i) → entries w !! n2 = Some (Ref i) →
    n1 = n2.

(** Lines 27-30: the name reaches the [try] block. *)
Definition selected (w : world) (filename : string) : bool :=
  match resolve w filename with
  | Some _ => has_text_extension filename
  | None => false
  end.

(** The bytes found under a name of a subdirectory. *)
Definition bytes_below (w : world) (dir filename : string)
    : option (list byte) :=
  match entries w !! dir with
  | Some (Subdir children) =>
    match List.find (λ c, String.eqb (fst c) filename) children with
    | Some (_, Ref i) => content <$> store w !! i
    | _ => None
    end
  | _ => None
  end.

(** The bytes found under a name. *)
Definition bytes_at (w : world) (filepath : string) : option (list byte) :=
  match resolve w filepath with
  | Some (_, f) => Some (content f)
  | None => None
  end.

(** What an iteration does in an environment whose console takes every
    line: the inode it writes with the file it leaves there, the line it
    prints, and whether it counts the file. *)
Record effect := Effect {
  written : option (inode * file);
  printed : list message;
  counted : bool
}.

Definition quiet (out : list message) : effect :=
  {| written := None; printed := out; counted := false |}.

Definition effect_of (nl : text) (filename : string) (w : world) : effect :=
  match resolve w filename with
  | Some (i, f) =>
    if has_text_extension filename then
      match read_error f with
      | Some msg => quiet [MsgError filename msg]
      | None =>
        match utf8_decode (content f) with
        | None => quiet [MsgSkippedNonText filename]
        | Some t =>
          match write_error f with
          | Some msg => quiet [MsgError filename msg]
          | None =>
            match utf8_encode (nl ++ nl ++ universal_newlines t) with
            | None =>
              {| written := Some (i, with_content f []);
                 printed :=
                   [MsgError filename (str_exn UnicodeEncodeError)];
                 counted := false |}
            | Some bs =>
              match late_write_error w i with
              | Some (msg, k) =>
                {| written := Some (i, with_content f (take k bs));
                   printed := [MsgError filename msg];
                   counted := false |}
              | None =>
                {| written := Some (i, with_content f bs);
                   printed := [MsgProcessed filename (newline_label nl)];
                   counted := true |}
              end
            end
          end
        end
      end
    else quiet []
  | None => quiet []
  end.

Definition apply_effect (w : world) (e : effect) : world :=
  {| entries := entries w;
     store := match written e with
              | Some (i, f) => <[i := f]> (store w)
              | None => store w
              end;
     late_write_error := late_write_error w;
     print_error := print_error w;
     stdout := stdout w ++ printed e |}.

(** The world a run leaves, its outcome, and the total of the last
    summary line on the console. *)
Definition final_world (p : platform) (listing : list string)
    (newline_type : string) (w : world) : world :=
  snd (insert_lines_to_files p listing newline_type w).

Definition run_outcome (p : platform) (listing : list string)
    (newline_type : string) (w : world) : outcome unit :=
  fst (insert_lines_to_files p listing newline_type w).

Definition processed_total (p : platform) (listing : list string)
    (newline_type : string) (w : world) : option nat :=
  last (reported_totals (stdout (final_world p listing newline_type w))).

End Env.

(** *** Sample environments *)

Definition willing_console (m : message) : option Env.print_failure := None.

Definition no_late_errors (i : Env.inode) : option (string * nat) := None.

(** A console whose encoding has no Chinese characters (ascii, cp1252):
    every line the program prints carries some, so no line can be
    encoded. *)
Definition narrow_console (m : message) : option Env.print_failure :=
  Some Env.CannotEncode.

(** A file that does not open for reading next to a text file, on such a
    console. *)
Definition narrow_console_directory : Env.world :=
  {| Env.entries := {["locked.txt"%string := Env.Ref 0%nat;
                      "b.md"%string := Env.Ref 1%nat]};
     Env.store := {[0%nat := locked_file; 1%nat := plain_file [x62]]};
     Env.late_write_error := no_late_errors;
     Env.print_error := narrow_console;
     Env.stdout := [] |}.

(** The same two files on a console that takes every line. *)
Definition locked_environment : Env.world :=
  {| Env.entries := {["locked.txt"%string := Env.Ref 0%nat;
                      "b.md"%string := Env.Ref 1%nat]};
     Env.store := {[0%nat := locked_file; 1%nat := plain_file [x62]]};
     Env.late_write_error := no_late_errors;
     Env.print_error := willing_console;
     Env.stdout := [] |}.

(** A disk that fills up: the file of inode 0 takes one byte and the
    write fails. *)
Definition full_disk_environment : Env.world :=
  {| Env.entries := {["a.txt"%string := Env.Ref 0%nat;
                      "b.md"%string := Env.Ref 1%nat]};
     Env.store := {[0%nat := plain_file [x68; x69];
                    1%nat := plain_file [x62]]};
     Env.late_write_error :=
       λ i, if bool_decide (i = 0%nat)
            then Some ("No space left on device"%string, 1%nat) else None;
     Env.print_error := willing_console;
     Env.stdout := [] |}.

(** a.txt and data.csv are two names of one file (a hard link); link.txt
    is a symbolic link to the file inner.txt of the subdirectory sub. *)
Definition linked_directory : Env.world :=
  {| Env.entries := {["a.txt"%string := Env.Ref 2%nat;
                      "data.csv"%string := Env.Ref 2%nat;
                      "link.txt"%string := Env.Ref 1%nat;
                      "sub"%string
                      := Env.Subdir [("inner.txt"%string, Env.Ref 1%nat)]]};
     Env.store := {[1%nat := plain_file [x78];
                    2%nat := plain_file [x68; x69]]};
     Env.late_write_error := no_late_errors;
     Env.print_error := willing_console;
     Env.stdout := [] |}.

(** A text file and a spreadsheet export, each a file of its own, and a
    subdirectory. *)
Definition pair_environment : Env.world :=
  {| Env.entries := {["a.txt"%string := Env.Ref 0%nat;
                      "data.csv"%string := Env.Ref 1%nat]};
     Env.store := {[0%nat := plain_file [x68; x69];
                    1%nat := plain_file [x31; x2c; x32]]};
     Env.late_write_error := no_late_errors;
     Env.print_error := willing_console;
     Env.stdout := [] |}.

(** *** The plain environment as a view of the full one

    [plain_view g w]: the plain world [w] shows the directory of the
    environment [g] with every name resolved to its file. *)
Definition views (s : gmap Env.inode file) (o : option Env.entry)
    (o' : option node) : Prop :=
  match o, o' with
  | Some (Env.Ref i), Some (Regular f) => s !! i = Some f
  | Some (Env.Ref i), Some Special => s !! i = None
  | Some (Env.Subdir _), Some (Directory _) => True
  | Some Env.Other, Some Special => True
  | None, None => True
  | _, _ => False
  end.

Definition plain_view (g : Env.world) (w : world) : Prop :=
  stdout w = Env.stdout g
  ∧ ∀ name, views (Env.store g) (Env.entries g !! name) (files w !! name).

(** Every name has a file of its own, the console takes every line, and a
    file that opens for writing takes all of its bytes. *)
Definition plain_environment (g : Env.world) : Prop :=
  Env.console_accepts g
  ∧ (∀ i, Env.late_write_error g i = None)
  ∧ ∀ n1 n2 i, Env.entries g !! n1 = Some (Env.Ref i) →
               Env.entries g !! n2 = Some (Env.Ref i) → n1 = n2.

(** * Properties *)

(** ** The codec: what decodes is written back byte for byte *)

Lemma is_continuation_range b : is_continuation b = true → 0x80 <= b <= 0xBF.
Proof. unfold is_continuation. rewrite andb_true_iff, !N.leb_le. lia. Qed.

Lemma div_mul_add q r d : r < d → (q * d + r) / d = q.
Proof. intros. symmetry. apply (N.div_unique _ d q r); lia. Qed.

Lemma mod_mul_add q r d : r < d → (q * d + r) mod d = r.
Proof. intros. symmetry. apply (N.mod_unique _ d q r); lia. Qed.

Lemma encode_cp2 b0 b1 :
  0xC2 <= b0 < 0xE0 → 0x80 <= b1 <= 0xBF →
  utf8_encode_cp ((b0 - 0xC0) * 64 + (b1 - 0x80)) = Some [b0; b1].
Proof.
  intros H0 H1. unfold utf8_encode_cp.
  rewrite div_mul_add, mod_mul_add by lia.
  destruct (N.ltb_spec ((b0 - 0xC0) * 64 + (b1 - 0x80)) 0x80); [lia|].
  destruct (N.ltb_spec ((b0 - 0xC0) * 64 + (b1 - 0x80)) 0x800); [|lia].
  do 2 f_equal; [lia|f_equal; lia].
Qed.

Lemma encode_cp3 b0 b1 b2 :
  0xE0 <= b0 < 0xF0 → 0x80 <= b1 <= 0xBF → 0x80 <= b2 <= 0xBF →
  ¬ (b0 = 0xE0 ∧ b1 < 0xA0) → ¬ (b0 = 0xED ∧ 0xA0 <= b1) →
  utf8_encode_cp ((b0 - 0xE0) * 4096 + (b1 - 0x80) * 64 + (b2 - 0x80))
  = Some [b0; b1; b2].
Proof.
  intros H0 H1 H2 Hov Hsur. unfold utf8_encode_cp.
  set (x := b0 - 0xE0). set (y := b1 - 0x80). set (z := b2 - 0x80).
  assert (x < 16 ∧ y < 64 ∧ z < 64) as (Hx & Hy & Hz) by (unfold x, y, z; lia).
  replace (x * 4096 + y * 64 + z) with ((x * 64 + y) * 64 + z) by lia.
  rewrite (div_mul_add _ z 64), (mod_mul_add _ z 64), (mod_mul_add x y 64) by lia.
  replace ((x * 64 + y) * 64 + z) with (x * 4096 + (y * 64 + z)) by lia.
  rewrite (div_mul_add x _ 4096) by lia.
  destruct (N.ltb_spec (x * 4096 + (y * 64 + z)) 0x80); [unfold x, y, z in *; lia|].
  destruct (N.ltb_spec (x * 4096 + (y * 64 + z)) 0x800); [unfold x, y, z in *; lia|].
  destruct (N.ltb_spec (x * 4096 + (y * 64 + z)) 0x10000); [|lia].
  destruct (N.leb_spec 0xD800 (x * 4096 + (y * 64 + z)));
    destruct (N.leb_spec (x * 4096 + (y * 64 + z)) 0xDFFF); simpl;
    try (exfalso; unfold x, y, z in *; lia);
    (do 2 f_equal; [|f_equal; [|f_equal]]; unfold x, y, z; lia).
Qed.

Lemma encode_cp4 b0 b1 b2 b3 :
  0xF0 <= b0 < 0xF5 → 0x80 <= b1 <= 0xBF → 0x80 <= b2 <= 0xBF →
  0x80 <= b3 <= 0xBF →
  ¬ (b0 = 0xF0 ∧ b1 < 0x90) → ¬ (b0 = 0xF4 ∧ 0x90 <= b1) →
  utf8_encode_cp ((b0 - 0xF0) * 262144 + (b1 - 0x80) * 4096
                  + (b2 - 0x80) * 64 + (b3 - 0x80))
  = Some [b0; b1; b2; b3].
Proof.
  intros H0 H1 H2 H3 Hov Hmax. unfold utf8_encode_cp.
  set (x := b0 - 0xF0). set (y := b1 - 0x80). set (z := b2 - 0x80).
  set (u := b3 - 0x80).
  assert (x < 5 ∧ y < 64 ∧ z < 64 ∧ u < 64) as (Hx & Hy & Hz & Hu)
    by (unfold x, y, z, u; lia).
  replace (x * 262144 + y * 4096 + z * 64 + u)
    with (((x * 64 + y) * 64 + z) * 64 + u) by lia.
  rewrite (div_mul_add _ u 64), (mod_mul_add _ u 64),
    (mod_mul_add _ z 64) by lia.
  replace (((x * 64 + y) * 64 + z) * 64 + u)
    with ((x * 64 + y) * 4096 + (z * 64 + u)) by lia.
  rewrite (div_mul_add _ _ 4096), (mod_mul_add x y 64) by lia.
  replace ((x * 64 + y) * 4096 + (z * 64 + u))
    with (x * 262144 + (y * 4096 + z * 64 + u)) by lia.
  rewrite (div_mul_add x _ 262144) by lia.
  set (c := x * 262144 + (y * 4096 + z * 64 + u)).
  assert (0x10000 <= c < 0x110000) by (unfold c, x, y, z, u in *; lia).
  destruct (N.ltb_spec c 0x80); [lia|].
  destruct (N.ltb_spec c 0x800); [lia|].
  destruct (N.ltb_spec c 0x10000); [lia|].
  destruct (N.ltb_spec c 0x110000); [|lia].
  do 2 f_equal; [|f_equal; [|f_equal; [|f_equal]]]; unfold x, y, z, u; lia.
Qed.

Lemma utf8_encode_N_cons c r b bs :
  utf8_encode_cp c = Some b → utf8_encode_N r = Some bs →
  utf8_encode_N (c :: r) = Some (b ++ bs).
Proof. intros Hc Hr. cbn [utf8_encode_N]. by rewrite Hc, Hr. Qed.

Ltac bool_to_prop :=
  repeat match goal with
  | H : _ && _ = true |- _ => apply andb_true_iff in H; destruct H
  | H : negb _ = true |- _ => apply negb_true_iff in H
  | H : _ && _ = false |- _ => apply andb_false_iff in H
  | H : is_continuation _ = true |- _ => apply is_continuation_range in H
  | H : context [(_ =? _) = false] |- _ => rewrite N.eqb_neq in H
  | H : context [(_ <? _) = false] |- _ => rewrite N.ltb_ge in H
  | H : context [(_ <=? _) = false] |- _ => rewrite N.leb_gt in H
  end.

Lemma utf8_decode_encode_N_le n :
  ∀ bs t, (length bs ≤ n)%nat →
    utf8_decode_N bs = Some t → utf8_encode_N t = Some bs.
Proof.
  induction n as [|n IH]; intros bs t Hlen Hdec.
  { destruct bs; [|simpl in Hlen; lia]. by inversion Hdec. }
  destruct bs as [|b0 t0]; [by inversion Hdec|].
  cbn [utf8_decode_N] in Hdec. simpl in Hlen.
  destruct (N.ltb_spec b0 0x80) as [Hb|Hb].
  { destruct (utf8_decode_N t0) as [r|] eqn:Hr; [|done].
    injection Hdec as <-.
    apply (utf8_encode_N_cons _ _ [b0]); [|apply IH; [lia|done]].
    unfold utf8_encode_cp. by destruct (N.ltb_spec b0 0x80); [|lia]. }
  destruct (N.ltb_spec b0 0xC2) as [?|Hb2]; [done|].
  destruct (N.ltb_spec b0 0xE0) as [Hb3|Hb3].
  { destruct t0 as [|b1 t1]; [done|].
    destruct (is_continuation b1) eqn:Hc1; [|done].
    destruct (utf8_decode_N t1) as [r|] eqn:Hr; [|done].
    injection Hdec as <-. bool_to_prop. simpl in Hlen.
    apply (utf8_encode_N_cons _ _ [b0; b1]); [|apply IH; [lia|done]].
    apply encode_cp2; lia. }
  destruct (N.ltb_spec b0 0xF0) as [Hb4|Hb4].
  { destruct t0 as [|b1 [|b2 t2]]; [done..|].
    match type of Hdec with (if ?c then _ else _) = _ =>
      destruct c eqn:Hc; [|done] end.
    destruct (utf8_decode_N t2) as [r|] eqn:Hr; [|done].
    injection Hdec as <-. bool_to_prop. simpl in Hlen.
    apply (utf8_encode_N_cons _ _ [b0; b1; b2]); [|apply IH; [lia|done]].
    apply encode_cp3; lia. }
  destruct (N.ltb_spec b0 0xF5) as [Hb5|Hb5]; [|done].
  destruct t0 as [|b1 [|b2 [|b3 t3]]]; [done..|].
  match type of Hdec with (if ?c then _ else _) = _ =>
    destruct c eqn:Hc; [|done] end.
  destruct (utf8_decode_N t3) as [r|] eqn:Hr; [|done].
  injection Hdec as <-. bool_to_prop. simpl in Hlen.
  apply (utf8_encode_N_cons _ _ [b0; b1; b2; b3]); [|apply IH; [lia|done]].
  apply encode_cp4; lia.
Qed.

Lemma utf8_decode_encode_N bs t :
  utf8_decode_N bs = Some t → utf8_encode_N t = Some bs.
Proof. apply (utf8_decode_encode_N_le (length bs)). lia. Qed.



Lemma utf8_encode_N_app a b x y :
  utf8_encode_N a = Some x → utf8_encode_N b = Some y →
  utf8_encode_N (a ++ b) = Some (x ++ y).
Proof.
  revert x. induction a as [|c a IH]; intros x Ha Hb.
  - injection Ha as <-. done.
  - cbn [utf8_encode_N app] in *.
    destruct (utf8_encode_cp c) as [bc|]; [|done].
    destruct (utf8_encode_N a) as [ba|]; [|done].
    injection Ha as <-. rewrite (IH ba eq_refl Hb).
    by rewrite <- app_assoc.
Qed.


Lemma encodable_cons c t :
  encodable (c :: t) ↔ is_Some (utf8_encode_cp c) ∧ encodable t.
Proof.
  unfold encodable. cbn [utf8_encode_N].
  destruct (utf8_encode_cp c) as [b|], (utf8_encode_N t) as [bs|]; split;
    first [ by intros [x Hx] | by intros [[x Hx] [y Hy]] | by eauto ].
Qed.

Lemma encodable_app a b : encodable a → encodable b → encodable (a ++ b).
Proof.
  intros [x Ha] [y Hb]. exists (x ++ y). by apply utf8_encode_N_app.
Qed.

Lemma encodable_decoded bs t : utf8_decode bs = Some t → encodable t.
Proof. intros H%utf8_decode_encode_N. by eexists. Qed.

Lemma encodable_LF : is_Some (utf8_encode_cp LF).
Proof. by eexists. Qed.

Lemma encodable_universal_newlines_le n :
  ∀ t, (length t ≤ n)%nat → encodable t → encodable (universal_newlines t).
Proof.
  induction n as [|n IH]; intros [|c r] Hlen Ht; simpl in Hlen;
    try done; try lia.
  apply encodable_cons in Ht as [Hc Hr].
  cbn [universal_newlines]. destruct (c =? CR).
  - destruct r as [|d r'].
    + apply encodable_cons. split; [apply encodable_LF|by exists []].
    + simpl in Hlen. destruct (d =? LF); apply encodable_cons;
        (split; [apply encodable_LF|]); apply IH.
      * lia.
      * by apply encodable_cons in Hr as [_ Hr'].
      * simpl. lia.
      * done.
  - apply encodable_cons. split; [done|]. apply IH; [lia|done].
Qed.

Lemma encodable_universal_newlines t :
  encodable t → encodable (universal_newlines t).
Proof. apply (encodable_universal_newlines_le (length t)). lia. Qed.

Lemma encodable_utf8_encode t : encodable t → is_Some (utf8_encode t).
Proof. intros [x Hx]. unfold utf8_encode. rewrite Hx. by eexists. Qed.

(** A text without carriage returns is read as it is. *)
Lemma universal_newlines_no_CR t : CR ∉ t → universal_newlines t = t.
Proof.
  induction t as [|c r IH]; [done|]. intros Hnot.
  apply not_elem_of_cons in Hnot as [Hc Hr].
  cbn [universal_newlines].
  destruct (N.eqb_spec c CR); [congruence|]. by rewrite IH.
Qed.

(** ** Names: [endswith] is the suffix relation *)

Lemma substring_all s : substring 0 (String.length s) s = s.
Proof. induction s as [|c s IH]; [done|]. simpl. by rewrite IH. Qed.

Lemma substring_skip p s m :
  substring (String.length p) m (p +:+ s) = substring 0 m s.
Proof. induction p as [|c p IH]; [done|]. simpl. apply IH. Qed.

Lemma substring_split n m s :
  (n + m = String.length s)%nat →
  s = substring 0 n s +:+ substring n m s.
Proof.
  revert s. induction n as [|n IH]; intros s Hlen.
  - simpl in Hlen. subst m. rewrite substring_all.
    by destruct s.
  - destruct s as [|c s]; [done|]. simpl in Hlen.
    change (String c s = String c (substring 0 n s +:+ substring n m s)).
    f_equal. apply IH. lia.
Qed.

Lemma length_string_app p s :
  String.length (p +:+ s) = (String.length p + String.length s)%nat.
Proof. induction p as [|c p IH]; [done|]. simpl. by rewrite IH. Qed.

Lemma endswith_spec s suffix :
  endswith s suffix = true ↔ ∃ stem, s = stem +:+ suffix.
Proof.
  unfold endswith. rewrite andb_true_iff, Nat.leb_le, String.eqb_eq. split.
  - intros [Hlen Hsub].
    exists (substring 0 (String.length s - String.length suffix) s).
    rewrite <- Hsub at 2. apply substring_split. lia.
  - intros [stem ->]. rewrite length_string_app. split; [lia|].
    replace (String.length stem + String.length suffix
             - String.length suffix)%nat
      with (String.length stem) by lia.
    rewrite substring_skip. apply substring_all.
Qed.

Lemma has_text_extension_spec filename :
  has_text_extension filename = true ↔
  ∃ stem, lower filename = stem +:+ ".txt"
          ∨ lower filename = stem +:+ ".md".
Proof.
  unfold has_text_extension, text_extensions. cbn [existsb].
  rewrite !orb_true_iff, !endswith_spec. split.
  - intros [[stem H]|[[stem H]|?]]; [exists stem; by left
                                     |exists stem; by right|done].
  - intros [stem [H|H]]; [left|right; left]; by exists stem.
Qed.

(** ** One iteration *)

Lemma lookup_set_content filepath f bs w name :
  files (set_content filepath f bs w) !! name
  = if decide (name = filepath) then Some (Regular (with_content f bs))
    else files w !! name.
Proof.
  unfold set_content, with_content. cbn [files]. rewrite lookup_insert.
  destruct (decide (filepath = name)), (decide (name = filepath));
    congruence.
Qed.

Lemma lookup_same (m : gmap string node) filename name o :
  m !! filename = o →
  m !! name = if decide (name = filename) then o else m !! name.
Proof. intros <-. by destruct (decide (name = filename)) as [->|]. Qed.

Lemma iteration_effect nl filename n w :
  ∃ w',
    iteration nl filename n w
    = (Return (if counted (effect_of nl filename (files w !! filename))
               then S n else n), w')
    ∧ (∀ name, files w' !! name
               = if decide (name = filename)
                 then node_after (effect_of nl filename (files w !! filename))
                 else files w !! name)
    ∧ stdout w' = stdout w
                  ++ printed (effect_of nl filename (files w !! filename)).
Proof.
  unfold iteration, bind, os_path_isfile, effect_of.
  destruct (files w !! filename) as [[f| |]|] eqn:Hnode; cbn [negb];
    try (exists w; split_and!;
         [done|intros; by apply lookup_same|by rewrite app_nil_r]).
  destruct (has_text_extension filename); cbn [negb];
    [|exists w; split_and!;
      [done|intros; by apply lookup_same|by rewrite app_nil_r]].
  unfold try_except, try_body, bind, read_text, write_text, handlers, print,
    ret, line1, line2.
  rewrite Hnode. cbn [app].
  destruct (read_error f) as [msg|] eqn:Hr.
  { eexists. split_and!; [done| |done]. intros. by apply lookup_same. }
  destruct (utf8_decode (content f)) as [t|] eqn:Hd.
  2:{ eexists. split_and!; [done| |done]. intros. by apply lookup_same. }
  rewrite Hnode.
  destruct (write_error f) as [msg|] eqn:Hw.
  { eexists. split_and!; [done| |done]. intros. by apply lookup_same. }
  destruct (utf8_encode (nl ++ nl ++ universal_newlines t)) as [bs|] eqn:He.
  - eexists. split_and!; [done| |done]. intros. apply lookup_set_content.
  - eexists. split_and!; [done| |done]. intros. apply lookup_set_content.
Qed.

(** ** The loop *)







Lemma resolve_newline_cases p newline_type :
  resolve_newline p newline_type = [LF]
  ∨ resolve_newline p newline_type = [CR; LF].
Proof.
  unfold resolve_newline.
  destruct (String.eqb newline_type "lf"); [by left|].
  destruct (String.eqb newline_type "crlf"); [by right|].
  destruct p; [by left|by right].
Qed.

(** What the [try] block writes can always be encoded. *)
Lemma new_content_encodes p newline_type bs t :
  utf8_decode bs = Some t →
  is_Some (utf8_encode (resolve_newline p newline_type
                        ++ resolve_newline p newline_type
                        ++ universal_newlines t)).
Proof.
  intros Hdec. apply encodable_utf8_encode.
  assert (Hnl : encodable (resolve_newline p newline_type)).
  { destruct (resolve_newline_cases p newline_type) as [->| ->];
      by eexists. }
  repeat apply encodable_app; try done.
  apply encodable_universal_newlines. by eapply encodable_decoded.
Qed.

(** ** Candidate files through a whole run *)


Lemma effect_of_not_selected nl filename w :
  selected w filename = false →
  effect_of nl filename (files w !! filename)
  = unchanged (files w !! filename) [].
Proof.
  unfold selected, effect_of.
  destruct (files w !! filename) as [[f| |]|]; try done.
  cbn [is_regular andb]. by intros ->.
Qed.



(** ** The codec, the other way: what is written decodes to itself *)

(** The base-64 digits of a code point, as the encoder takes them. *)
Lemma base64_digits c :
  ∃ q1 r1 q2 r2 q3 r3,
    c / 64 = q1 ∧ c mod 64 = r1 ∧ c / 4096 = q2 ∧ (c / 64) mod 64 = r2
    ∧ c / 262144 = q3 ∧ (c / 4096) mod 64 = r3
    ∧ c = 64 * q1 + r1 ∧ q1 = 64 * q2 + r2 ∧ q2 = 64 * q3 + r3
    ∧ r1 < 64 ∧ r2 < 64 ∧ r3 < 64.
Proof.
  exists (c / 64), (c mod 64), (c / 64 / 64), ((c / 64) mod 64),
    (c / 64 / 64 / 64), ((c / 64 / 64) mod 64).
  change 4096 with (64 * 64). change 262144 with (64 * 64 * 64).
  rewrite <- !N.Div0.div_div.
  split_and!; try done; try apply N.div_mod'; by apply N.mod_lt.
Qed.

Ltac decide_ltb :=
  repeat match goal with
  | |- context [?a <? ?b] => destruct (N.ltb_spec a b); try lia
  | |- context [?a <=? ?b] => destruct (N.leb_spec a b); try lia
  | |- context [?a =? ?b] => destruct (N.eqb_spec a b); try lia
  end.

Lemma utf8_decode_N_cp c b rest :
  utf8_encode_cp c = Some b →
  utf8_decode_N (b ++ rest) = cons c <$> utf8_decode_N rest.
Proof.
  unfold utf8_encode_cp. intros Henc.
  destruct (base64_digits c)
    as (q1 & r1 & q2 & r2 & q3 & r3 & E1 & E2 & E3 & E4 & E5 & E6
        & Hc & Hq1 & Hq2 & Hr1 & Hr2 & Hr3).
  rewrite E6, E4, E5, E3, E1, E2 in Henc. clear E1 E2 E3 E4 E5 E6.
  destruct (N.ltb_spec c 0x80) as [H1|H1].
  { injection Henc as <-. cbn [app utf8_decode_N]. by decide_ltb. }
  destruct (N.ltb_spec c 0x800) as [H2|H2].
  { injection Henc as <-. cbn [app utf8_decode_N]. unfold is_continuation.
    decide_ltb. cbn [andb]. do 2 f_equal. lia. }
  destruct (N.ltb_spec c 0x10000) as [H3|H3].
  { destruct (N.leb_spec 0xD800 c) as [H4|H4];
      destruct (N.leb_spec c 0xDFFF) as [H5|H5]; cbn [andb] in Henc;
      try done; injection Henc as <-; cbn [app utf8_decode_N];
      unfold is_continuation; decide_ltb; cbn [andb negb];
      do 2 f_equal; lia. }
  destruct (N.ltb_spec c 0x110000) as [H4|H4]; [|done].
  injection Henc as <-. cbn [app utf8_decode_N]. unfold is_continuation.
  decide_ltb; cbn [andb negb]; do 2 f_equal; lia.
Qed.

Lemma utf8_encode_decode_N t :
  ∀ bs, utf8_encode_N t = Some bs → utf8_decode_N bs = Some t.
Proof.
  induction t as [|c r IH]; intros bs Henc.
  - by injection Henc as <-.
  - cbn [utf8_encode_N] in Henc.
    destruct (utf8_encode_cp c) as [b|] eqn:Hcp; [|done].
    destruct (utf8_encode_N r) as [br|] eqn:Hr; [|done].
    injection Henc as <-.
    by rewrite (utf8_decode_N_cp _ _ _ Hcp), (IH br eq_refl).
Qed.

Lemma utf8_encode_cp_bounded c b :
  utf8_encode_cp c = Some b → Forall (λ n, n < 256) b.
Proof.
  unfold utf8_encode_cp. intros Henc.
  destruct (base64_digits c)
    as (q1 & r1 & q2 & r2 & q3 & r3 & E1 & E2 & E3 & E4 & E5 & E6
        & Hc & Hq1 & Hq2 & Hr1 & Hr2 & Hr3).
  rewrite E6, E4, E5, E3, E1, E2 in Henc. clear E1 E2 E3 E4 E5 E6.
  destruct (N.ltb_spec c 0x80);
    [|destruct (N.ltb_spec c 0x800);
      [|destruct (N.ltb_spec c 0x10000);
        [destruct ((0xD800 <=? c) && (c <=? 0xDFFF)); [done|]
        |destruct (N.ltb_spec c 0x110000); [|done]]]];
    injection Henc as <-; repeat constructor; lia.
Qed.

Lemma utf8_encode_N_bounded t :
  ∀ bs, utf8_encode_N t = Some bs → Forall (λ n, n < 256) bs.
Proof.
  induction t as [|c r IH]; intros bs Henc.
  - injection Henc as <-. constructor.
  - cbn [utf8_encode_N] in Henc.
    destruct (utf8_encode_cp c) as [b|] eqn:Hcp; [|done].
    destruct (utf8_encode_N r) as [br|] eqn:Hr; [|done].
    injection Henc as <-. apply Forall_app. split.
    + by eapply utf8_encode_cp_bounded.
    + by apply IH.
Qed.

Lemma to_N_byte_of_N n : n < 256 → Byte.to_N (byte_of_N n) = n.
Proof.
  intros Hn. unfold byte_of_N.
  destruct (Byte.of_N n) as [b|] eqn:Hb.
  - by apply Byte.to_of_N.
  - apply Byte.of_N_None_iff in Hb. lia.
Qed.

Lemma to_N_bytes_of_N ns :
  Forall (λ n, n < 256) ns → map Byte.to_N (map byte_of_N ns) = ns.
Proof.
  induction 1 as [|n l Hn _ IH]; [done|].
  cbn [map]. rewrite IH. f_equal. by apply to_N_byte_of_N.
Qed.

Lemma utf8_encode_decode t bs :
  utf8_encode t = Some bs → utf8_decode bs = Some t.
Proof.
  unfold utf8_encode, utf8_decode. intros Henc.
  destruct (utf8_encode_N t) as [ns|] eqn:Hns; [|done].
  injection Henc as <-.
  rewrite to_N_bytes_of_N by (by eapply utf8_encode_N_bounded).
  by apply utf8_encode_decode_N.
Qed.

(** ** Reading leaves no carriage return *)

Lemma universal_newlines_CR_free_le n :
  ∀ t, (length t ≤ n)%nat → CR ∉ universal_newlines t.
Proof.
  induction n as [|n IH]; intros [|c r] Hlen; simpl in Hlen;
    try (apply not_elem_of_nil); try lia.
  cbn [universal_newlines]. destruct (N.eqb_spec c CR) as [->|Hc].
  - destruct r as [|d r'].
    + by intros ?%list_elem_of_singleton.
    + simpl in Hlen.
      destruct (d =? LF); apply not_elem_of_cons;
        (split; [done|]); apply IH; simpl; lia.
  - apply not_elem_of_cons. split; [done|]. apply IH. lia.
Qed.

Lemma universal_newlines_CR_free t : CR ∉ universal_newlines t.
Proof. by apply (universal_newlines_CR_free_le (length t)). Qed.

Lemma universal_newlines_header p newline_type x :
  CR ∉ x →
  universal_newlines (resolve_newline p newline_type
                      ++ resolve_newline p newline_type ++ x)
  = [LF; LF] ++ x.
Proof.
  intros Hx.
  destruct (resolve_newline_cases p newline_type) as [-> | ->];
    cbn; by rewrite universal_newlines_no_CR.
Qed.

(** ** Where the original content survives, and what a second run does *)






(** ** The claims *)



(** C2, at the input where it fails: a file holding a, CR, LF, b comes
    back from a run with its own line ending turned into a bare LF, under
    either mode, so what follows the two inserted terminators is not the
    content the file had. Reading applies the universal-newlines
    translation; only the writing side passes [newline='']. *)
Theorem crlf_body_is_translated :
  files (final_world posix ["a.txt"%string] "lf" crlf_directory)
    !! "a.txt"%string
  = Some (Regular (plain_file ([x0a; x0a] ++ [x61; x0a; x62])))
  ∧ files (final_world posix ["a.txt"%string] "crlf" crlf_directory)
      !! "a.txt"%string
    = Some (Regular (plain_file
              ([x0d; x0a; x0d; x0a] ++ [x61; x0a; x62])))
  ∧ files crlf_directory !! "a.txt"%string
    = Some (Regular (plain_file [x61; x0d; x0a; x62])).
Proof. split_and!; reflexivity. Qed.








Lemma selected_spec w filename :
  selected w filename = true ↔
  (∃ f, files w !! filename = Some (Regular f))
  ∧ ∃ stem, lower filename = stem +:+ ".txt"
            ∨ lower filename = stem +:+ ".md".
Proof.
  unfold selected. rewrite andb_true_iff, has_text_extension_spec.
  split; intros [Hreg Hext]; (split; [|done]).
  - destruct (files w !! filename) as [[f| |]|]; try done. by exists f.
  - destruct Hreg as [f ->]. done.
Qed.

Lemma iteration_not_selected nl filename n w :
  selected w filename = false → iteration nl filename n w = (Return n, w).
Proof.
  unfold selected, iteration, bind, os_path_isfile.
  destruct (files w !! filename) as [[f| |]|]; try done.
  cbn [is_regular andb negb]. by intros ->.
Qed.

Lemma iteration_selected nl filename n w :
  selected w filename = true →
  iteration nl filename n w
  = try_except (try_body nl filename n) (handlers filename n) w.
Proof.
  unfold selected, iteration, bind, os_path_isfile.
  destruct (files w !! filename) as [[f| |]|]; try done.
  cbn [is_regular andb negb]. by intros ->.
Qed.

(** C5: an entry reaches the [try] block exactly when it is a regular file
    and its lowercased name ends with .txt or with .md; every other entry
    is passed over with the world and the counter as they were. The test
    looks at the name only: a file under the name NOTES.TXT is selected,
    and replacing a file by another file under the same name never
    changes the answer. *)
Theorem selection_by_name w filename :
  (selected w filename = true ↔
   (∃ f, files w !! filename = Some (Regular f))
   ∧ ∃ stem, lower filename = stem +:+ ".txt"
             ∨ lower filename = stem +:+ ".md")
  ∧ (∀ nl n, iteration nl filename n w
             = if selected w filename
               then try_except (try_body nl filename n)
                               (handlers filename n) w
               else (Return n, w))
  ∧ (∀ f, selected {| files := <["NOTES.TXT"%string := Regular f]> (files w);
                      stdout := stdout w |} "NOTES.TXT" = true)
  ∧ (∀ f f', selected {| files := <[filename := Regular f]> (files w);
                         stdout := stdout w |} filename
             = selected {| files := <[filename := Regular f']> (files w);
                           stdout := stdout w |} filename).
Proof.
  split_and!.
  - apply selected_spec.
  - intros nl n. destruct (selected w filename) eqn:Hsel.
    + by apply iteration_selected.
    + by apply iteration_not_selected.
  - intros f. unfold selected. cbn [files]. by rewrite lookup_insert_eq.
  - intros f f'. unfold selected. cbn [files]. by rewrite !lookup_insert_eq.
Qed.

Lemma selection_by_name_witness :
  selected hello_directory "NOTES.TXT" = true
  ∧ selected mixed_directory "data.csv" = false
  ∧ selected mixed_directory "sub" = false.
Proof.
  split_and!.
  - apply (proj1 (selection_by_name hello_directory "NOTES.TXT")).
    split; [eexists; reflexivity|exists "notes"%string; left; reflexivity].
  - reflexivity.
  - reflexivity.
Defined.



(** C8, at the input where it fails: a file holding hello, run twice
    under mode crlf. The first run leaves CR LF CR LF hello. The second
    run reads that back with both CR LF turned into LF and leaves
    CR LF CR LF LF LF hello, which is not two more terminators in front
    of the content after the first run. *)
Theorem second_run_crlf_rewrites_first_header :
  files (final_world posix ["NOTES.TXT"%string] "crlf" hello_directory)
    !! "NOTES.TXT"%string
  = Some (Regular (plain_file
            ([x0d; x0a; x0d; x0a] ++ list_byte_of_string "hello")))
  ∧ files (final_world posix ["NOTES.TXT"%string] "crlf"
             (final_world posix ["NOTES.TXT"%string] "crlf"
                hello_directory))
      !! "NOTES.TXT"%string
    = Some (Regular (plain_file
              ([x0d; x0a; x0d; x0a] ++ [x0a; x0a]
               ++ list_byte_of_string "hello")))
  ∧ [x0d; x0a; x0d; x0a] ++ [x0a; x0a] ++ list_byte_of_string "hello"
    ≠ [x0d; x0a; x0d; x0a] ++ [x0d; x0a; x0d; x0a]
      ++ list_byte_of_string "hello".
Proof. split_and!; [reflexivity|reflexivity|discriminate]. Qed.

Lemma resolve_newline_other p newline_type :
  newline_type ≠ "lf"%string → newline_type ≠ "crlf"%string →
  resolve_newline p newline_type = os_linesep p.
Proof.
  intros Hlf%String.eqb_neq Hcrlf%String.eqb_neq. unfold resolve_newline.
  by rewrite Hlf, Hcrlf.
Qed.

Lemma parse_newline_accepts v :
  is_Some (parse_newline (Some v)) ↔ v ∈ newline_choices.
Proof.
  unfold parse_newline.
  destruct (bool_decide_reflect (v ∈ newline_choices)) as [Hin|Hnin].
  - split; [done|by eexists].
  - split; [by intros [? ?]|done].
Qed.



(** * Further properties *)

(** ** What an iteration can do, case by case *)



(** The text a run writes is never the text it read. *)
Lemma new_text_differs p newline_type t :
  resolve_newline p newline_type ++ resolve_newline p newline_type
  ++ universal_newlines t ≠ t.
Proof.
  intros Heq.
  pose proof (universal_newlines_header p newline_type
                (universal_newlines t) (universal_newlines_CR_free t))
    as Hhead.
  rewrite Heq in Hhead. apply (f_equal length) in Hhead.
  simpl in Hhead. lia.
Qed.

Lemma rewritten_node_differs p newline_type f t bs :
  utf8_decode (content f) = Some t →
  utf8_encode (resolve_newline p newline_type
               ++ resolve_newline p newline_type
               ++ universal_newlines t) = Some bs →
  Some (Regular (with_content f bs)) ≠ Some (Regular f).
Proof.
  intros Hd He [= Heq].
  apply utf8_encode_decode in He.
  assert (Hbs : bs = content f) by (by rewrite <- Heq).
  rewrite Hbs, Hd in He. injection He as He.
  by apply (new_text_differs p newline_type t).
Qed.

(** ** Further properties of a run *)












(** * The run in the full environment *)

(** ** One iteration where the console takes every line *)

Lemma env_apply_quiet_nil w : Env.apply_effect w (Env.quiet []) = w.
Proof.
  destruct w. unfold Env.apply_effect, Env.quiet. cbn. by rewrite app_nil_r.
Qed.

Lemma env_iteration_effect nl filename n w :
  Env.console_accepts w →
  Env.iteration nl filename n w
  = (Return (if Env.counted (Env.effect_of nl filename w) then S n else n),
     Env.apply_effect w (Env.effect_of nl filename w)).
Proof.
  intros Hcon.
  unfold Env.iteration, Env.bind, Env.os_path_isfile, Env.effect_of.
  destruct (Env.resolve w filename) as [[i f]|] eqn:Hres; cbn [negb];
    [|by rewrite env_apply_quiet_nil].
  destruct (has_text_extension filename); cbn [negb];
    [|by rewrite env_apply_quiet_nil].
  unfold Env.resolve in Hres.
  destruct (Env.entries w !! filename) as [[j| |]|] eqn:Hent; try done.
  destruct (Env.store w !! j) as [f'|] eqn:Hst; [|done].
  injection Hres as -> ->.
  unfold Env.try_except, Env.try_body, Env.bind, Env.read_text,
    Env.write_text, Env.write_open, Env.handlers, Env.print, Env.ret,
    line1, line2.
  rewrite Hent, Hst. cbn [app].
  destruct (read_error f) as [msg|] eqn:Hr.
  { unfold Env.bind. by rewrite Hcon. }
  destruct (utf8_decode (content f)) as [t|] eqn:Hd;
    [|unfold Env.bind; by rewrite Hcon].
  rewrite Hent, Hst.
  destruct (write_error f) as [msg|] eqn:Hw;
    [unfold Env.bind; by rewrite Hcon|].
  destruct (utf8_encode (nl ++ nl ++ universal_newlines t)) as [bs|] eqn:He.
  - destruct (Env.late_write_error w i) as [[msg k]|] eqn:Hl;
      unfold Env.bind; cbn; by rewrite Hcon.
  - unfold Env.bind. cbn. by rewrite Hcon.
Qed.

Lemma env_console_accepts_apply w e :
  Env.console_accepts w → Env.console_accepts (Env.apply_effect w e).
Proof. done. Qed.

Lemma env_written_resolves nl filename w i f' :
  Env.written (Env.effect_of nl filename w) = Some (i, f') →
  Env.entries w !! filename = Some (Env.Ref i)
  ∧ ∃ f bs, Env.store w !! i = Some f ∧ f' = with_content f bs.
Proof.
  unfold Env.effect_of, Env.resolve.
  destruct (Env.entries w !! filename) as [[j| |]|]; try done.
  destruct (Env.store w !! j) as [f|] eqn:Hst; [|done].
  unfold Env.quiet. repeat case_match; cbn [Env.written]; try done;
    intros [= <- <-]; (split; [done|]); by eexists _, _.
Qed.

(** The effect of an iteration depends on the world only through the
    entry of the name, the file it leads to and the late failure of that
    file. *)
Lemma env_effect_of_ext nl filename w w1 :
  Env.entries w1 = Env.entries w →
  Env.late_write_error w1 = Env.late_write_error w →
  (∀ i, Env.entries w !! filename = Some (Env.Ref i) →
        Env.store w1 !! i = Env.store w !! i) →
  Env.effect_of nl filename w1 = Env.effect_of nl filename w.
Proof.
  intros Hent Hlate Hst. unfold Env.effect_of, Env.resolve.
  rewrite Hent, Hlate.
  destruct (Env.entries w !! filename) as [[i| |]|] eqn:He; try done.
  by rewrite (Hst i eq_refl).
Qed.

(** ** The loop where the console takes every line and no two names of
    the listing lead to the same file *)

Lemma env_for_loop_effect nl listing :
  NoDup listing → ∀ n w,
    Env.console_accepts w → Env.link_free w listing →
    ∃ w',
      Env.for_loop nl listing n w
      = (Return (n + length (List.filter
                               (λ name, Env.counted (Env.effect_of nl name w))
                               listing))%nat, w')
      ∧ Env.entries w' = Env.entries w
      ∧ Env.late_write_error w' = Env.late_write_error w
      ∧ Env.print_error w' = Env.print_error w
      ∧ (∀ name i f', name ∈ listing →
           Env.written (Env.effect_of nl name w) = Some (i, f') →
           Env.store w' !! i = Some f')
      ∧ (∀ i, (∀ name f', name ∈ listing →
                 Env.written (Env.effect_of nl name w) ≠ Some (i, f')) →
              Env.store w' !! i = Env.store w !! i)
      ∧ Env.stdout w'
        = Env.stdout w
          ++ flat_map (λ name, Env.printed (Env.effect_of nl name w)) listing.
Proof.
  induction 1 as [|filename rest Hnotin Hnodup IH]; intros n w Hcon Hfree.
  { exists w. cbn. unfold Env.ret. rewrite Nat.add_0_r, app_nil_r.
    split_and!; try done. by intros name i f' ?%not_elem_of_nil. }
  set (e := Env.effect_of nl filename w).
  set (w1 := Env.apply_effect w e).
  assert (Hsame : ∀ name, name ∈ rest →
            Env.effect_of nl name w1 = Env.effect_of nl name w).
  { intros name Hin. apply env_effect_of_ext; [done|done|].
    intros i Hi. unfold w1, Env.apply_effect. cbn [Env.store].
    destruct (Env.written e) as [[j f']|] eqn:Hwr; [|done].
    apply env_written_resolves in Hwr as [Hj _].
    rewrite lookup_insert_ne; [done|]. intros ->.
    assert (name = filename); [|by subst].
    apply (Hfree name filename i); [by right|by left|done|done]. }
  destruct (IH (if Env.counted e then S n else n) w1) as
    (w' & Hloop & Hent & Hlate & Hpr & Hwritten & Hother & Hout).
  { by apply env_console_accepts_apply. }
  { intros n1 n2 i H1 H2. apply Hfree; by right. }
  exists w'. split_and!.
  - cbn [Env.for_loop]. unfold Env.bind at 1.
    rewrite (env_iteration_effect _ _ _ _ Hcon). fold e w1. rewrite Hloop.
    rewrite (List.filter_ext_in _ (λ name,
               Env.counted (Env.effect_of nl name w)) rest)
      by (intros name Hin%list_elem_of_In; by rewrite Hsame).
    cbn [List.filter]. fold e.
    destruct (Env.counted e); simpl; f_equal; f_equal; lia.
  - by rewrite Hent.
  - by rewrite Hlate.
  - by rewrite Hpr.
  - intros name i f' [->|Hin]%elem_of_cons Hwr.
    + fold e in Hwr. rewrite Hother.
      * unfold w1, Env.apply_effect. cbn [Env.store]. rewrite Hwr.
        apply lookup_insert_eq.
      * intros name f'' Hin. rewrite (Hsame _ Hin). intros Hwr'.
        apply env_written_resolves in Hwr as [Hi _].
        apply env_written_resolves in Hwr' as [Hi' _].
        assert (name = filename); [|by subst].
        apply (Hfree name filename i); [by right|by left|done|done].
    + apply (Hwritten name); [done|]. by rewrite Hsame.
  - intros i Hnone. rewrite Hother.
    + unfold w1, Env.apply_effect. cbn [Env.store].
      destruct (Env.written e) as [[j f']|] eqn:Hwr; [|done].
      rewrite lookup_insert_ne; [done|]. intros ->.
      by apply (Hnone filename f'); [left|].
    + intros name f' Hin. rewrite (Hsame _ Hin). apply Hnone. by right.
  - rewrite Hout. unfold w1, Env.apply_effect. cbn [Env.stdout flat_map].
    fold e. rewrite <- app_assoc. f_equal. f_equal.
    clear -Hsame. induction rest as [|a l IHl]; [done|].
    cbn [flat_map]. rewrite Hsame by left. f_equal. apply IHl.
    intros name Hin. apply Hsame. by right.
Qed.

Lemma env_for_loop_returns nl listing :
  ∀ n w, Env.console_accepts w →
    ∃ n' w', Env.for_loop nl listing n w = (Return n', w')
             ∧ Env.console_accepts w'.
Proof.
  induction listing as [|filename rest IH]; intros n w Hcon.
  { by exists n, w. }
  cbn [Env.for_loop]. unfold Env.bind at 1.
  rewrite (env_iteration_effect _ _ _ _ Hcon). apply IH.
  by apply env_console_accepts_apply.
Qed.

Lemma env_insert_lines_returns p listing newline_type w :
  Env.console_accepts w →
  ∃ w', Env.insert_lines_to_files p listing newline_type w = (Return tt, w').
Proof.
  intros Hcon.
  destruct (env_for_loop_returns (resolve_newline p newline_type) listing
              0%nat w Hcon) as (n & w1 & Hloop & Hcon1).
  unfold Env.insert_lines_to_files, Env.bind. rewrite Hloop.
  unfold Env.print. cbn. rewrite Hcon1. cbn. rewrite Hcon1. by eexists.
Qed.

Lemma env_run_effect p listing newline_type w :
  NoDup listing → Env.console_accepts w → Env.link_free w listing →
  ∃ w',
    Env.insert_lines_to_files p listing newline_type w = (Return tt, w')
    ∧ Env.entries w' = Env.entries w
    ∧ (∀ name i f', name ∈ listing →
         Env.written (Env.effect_of (resolve_newline p newline_type) name w)
         = Some (i, f') →
         Env.store w' !! i = Some f')
    ∧ (∀ i, (∀ name f', name ∈ listing →
               Env.written
                 (Env.effect_of (resolve_newline p newline_type) name w)
               ≠ Some (i, f')) →
            Env.store w' !! i = Env.store w !! i)
    ∧ Env.stdout w'
      = Env.stdout w
        ++ flat_map (λ name,
             Env.printed
               (Env.effect_of (resolve_newline p newline_type) name w))
             listing
        ++ [MsgFinished
              (length (List.filter
                 (λ name,
                    Env.counted
                      (Env.effect_of (resolve_newline p newline_type)
                         name w))
                 listing));
            MsgNewlineUsed
              (newline_label_long (resolve_newline p newline_type))].
Proof.
  intros Hnodup Hcon Hfree.
  destruct (env_for_loop_effect (resolve_newline p newline_type) listing
              Hnodup 0%nat w Hcon Hfree)
    as (w1 & Hloop & Hent & Hlate & Hpr & Hwritten & Hother & Hout).
  assert (Hcon1 : Env.console_accepts w1).
  { intros m. by rewrite Hpr. }
  unfold Env.insert_lines_to_files, Env.bind. rewrite Hloop.
  unfold Env.print. cbn. rewrite Hcon1. cbn. rewrite Hcon1. eexists.
  split_and!; [done|done|done|done|].
  unfold Env.with_line. cbn [Env.stdout].
  rewrite Hout, <- !app_assoc. done.
Qed.

(** A candidate file that opens, decodes and takes its bytes is rewritten
    with the terminator of the run twice in front of what was read. *)
Lemma env_run_rewrites p listing newline_type w filename i f t :
  NoDup listing → Env.console_accepts w → Env.link_free w listing →
  filename ∈ listing →
  Env.resolve w filename = Some (i, f) →
  has_text_extension filename = true →
  read_error f = None → write_error f = None →
  utf8_decode (content f) = Some t →
  Env.late_write_error w i = None →
  ∃ bs,
    utf8_encode (resolve_newline p newline_type
                 ++ resolve_newline p newline_type
                 ++ universal_newlines t) = Some bs
    ∧ Env.store (Env.final_world p listing newline_type w) !! i
      = Some (with_content f bs).
Proof.
  intros Hnodup Hcon Hfree Hin Hres Hext Hr Hw Hd Hl.
  destruct (new_content_encodes p newline_type _ _ Hd) as [bs He].
  exists bs. split; [done|]. unfold Env.final_world.
  destruct (env_run_effect p listing newline_type w Hnodup Hcon Hfree)
    as (w' & -> & _ & Hwritten & _). cbn [snd].
  apply (Hwritten filename); [done|].
  unfold Env.effect_of. by rewrite Hres, Hext, Hr, Hd, Hw, He, Hl.
Qed.

(** ** What no run does, whatever the environment *)

(** What a run may do to the file of an inode: leave it, or give it other
    bytes. *)
Lemma env_iteration_frame nl filename n w :
  Env.entries (snd (Env.iteration nl filename n w)) = Env.entries w
  ∧ Env.late_write_error (snd (Env.iteration nl filename n w))
    = Env.late_write_error w
  ∧ Env.print_error (snd (Env.iteration nl filename n w))
    = Env.print_error w
  ∧ ∀ i, Env.store (snd (Env.iteration nl filename n w)) !! i
         = Env.store w !! i
         ∨ (Env.selected w filename = true
            ∧ Env.entries w !! filename = Some (Env.Ref i)
            ∧ ∃ f bs, Env.store w !! i = Some f
                      ∧ Env.store (snd (Env.iteration nl filename n w)) !! i
                        = Some (with_content f bs)).
Proof.
  unfold Env.iteration, Env.bind, Env.os_path_isfile, Env.selected.
  destruct (Env.resolve w filename) as [[j f]|] eqn:Hres; cbn [negb];
    [|by split_and!; [..|left]].
  destruct (has_text_extension filename); cbn [negb];
    [|by split_and!; [..|left]].
  unfold Env.resolve in Hres.
  destruct (Env.entries w !! filename) as [[j'| |]|] eqn:Hent; try done.
  destruct (Env.store w !! j') as [f'|] eqn:Hst; [|done].
  injection Hres as -> ->.
  assert (Hins : ∀ bs i,
            <[j := with_content f bs]> (Env.store w) !! i
            = Env.store w !! i
            ∨ (true = true ∧ Some (Env.Ref j) = Some (Env.Ref i)
               ∧ ∃ f0 bs0, Env.store w !! i = Some f0
                           ∧ <[j := with_content f bs]> (Env.store w) !! i
                             = Some (with_content f0 bs0))).
  { intros bs i. destruct (decide (j = i)) as [<-|Hne].
    - right. split_and!; [done..|]. exists f, bs.
      by rewrite lookup_insert_eq.
    - left. by rewrite lookup_insert_ne. }
  unfold Env.try_except, Env.try_body, Env.bind, Env.read_text,
    Env.write_text, Env.write_open, Env.handlers, Env.print, Env.ret,
    Env.set_store, line1, line2.
  rewrite Hent, Hst. cbn [app].
  destruct (read_error f) as [msg|];
    [unfold Env.bind; destruct (Env.print_error w _);
     by split_and!; [..|left]|].
  destruct (utf8_decode (content f)) as [t|];
    [|unfold Env.bind; destruct (Env.print_error w _);
      by split_and!; [..|left]].
  rewrite Hent, Hst.
  destruct (write_error f) as [msg|];
    [unfold Env.bind; destruct (Env.print_error w _);
     by split_and!; [..|left]|].
  destruct (utf8_encode (nl ++ nl ++ universal_newlines t)) as [bs|];
    [destruct (Env.late_write_error w j) as [[msg k]|]|];
    unfold Env.bind; cbn;
    repeat (match goal with
            | |- context [Env.print_error w ?m] =>
              destruct (Env.print_error w m) as [[|?]|]; cbn
            end);
    split_and!; try done; intros i; apply Hins.
Qed.

Lemma env_selected_frame w w1 name :
  Env.entries w1 = Env.entries w →
  (∀ i, Env.store w1 !! i = Env.store w !! i
        ∨ ∃ f bs, Env.store w !! i = Some f
                  ∧ Env.store w1 !! i = Some (with_content f bs)) →
  Env.selected w1 name = Env.selected w name.
Proof.
  intros Hent Hst. unfold Env.selected, Env.resolve. rewrite Hent.
  destruct (Env.entries w !! name) as [[i| |]|]; try done.
  destruct (Hst i) as [->|(f & bs & -> & ->)]; done.
Qed.

Lemma env_for_loop_frame nl listing :
  ∀ n w,
    Env.entries (snd (Env.for_loop nl listing n w)) = Env.entries w
    ∧ Env.late_write_error (snd (Env.for_loop nl listing n w))
      = Env.late_write_error w
    ∧ Env.print_error (snd (Env.for_loop nl listing n w))
      = Env.print_error w
    ∧ ∀ i, Env.store (snd (Env.for_loop nl listing n w)) !! i
           = Env.store w !! i
           ∨ ((∃ name, name ∈ listing ∧ Env.selected w name = true
                       ∧ Env.entries w !! name = Some (Env.Ref i))
              ∧ ∃ f bs, Env.store w !! i = Some f
                        ∧ Env.store (snd (Env.for_loop nl listing n w)) !! i
                          = Some (with_content f bs)).
Proof.
  induction listing as [|a rest IH]; intros n w.
  { by split_and!; [..|left]. }
  pose proof (env_iteration_frame nl a n w) as (Hent & Hlate & Hpr & Hst).
  cbn [Env.for_loop]. unfold Env.bind at 1 2 3 4 5.
  destruct (Env.iteration nl a n w) as [[n1|e] w1]; cbn [snd] in *.
  - destruct (IH n1 w1) as (Hent' & Hlate' & Hpr' & Hst').
    split_and!; [congruence..|]. intros i.
    assert (Hsel : ∀ name, Env.selected w1 name = Env.selected w name).
    { intros name. apply env_selected_frame; [done|].
      intros j. destruct (Hst j) as [?|(_ & _ & ?)]; [by left|by right]. }
    destruct (Hst' i) as [Heq|[(name & Hin & Hs & Hn) (f1 & bs1 & Hf1 & ->)]].
    + rewrite Heq.
      destruct (Hst i) as [?|(Hs & Hn & f & bs & Hf & Hf')]; [by left|].
      right. split; [exists a; split_and!; [left|done..]|by exists f, bs].
    + right. split.
      { exists name. split_and!; [by right|by rewrite <- Hsel|congruence]. }
      destruct (Hst i) as [Heq|(_ & _ & f & bs & Hf & Hf')].
      * exists f1, bs1. by rewrite <- Heq.
      * rewrite Hf' in Hf1. injection Hf1 as <-. by exists f, bs1.
  - split_and!; [done..|]. intros i.
    destruct (Hst i) as [?|(Hs & Hn & Hf)]; [by left|].
    right. split; [|done]. exists a. split_and!; [left|done..].
Qed.

Lemma env_final_world_frame p listing newline_type w :
  Env.entries (Env.final_world p listing newline_type w) = Env.entries w
  ∧ Env.store (Env.final_world p listing newline_type w)
    = Env.store
        (snd (Env.for_loop (resolve_newline p newline_type) listing 0%nat w)).
Proof.
  pose proof (env_for_loop_frame (resolve_newline p newline_type) listing
                0%nat w) as (Hent & _).
  unfold Env.final_world, Env.insert_lines_to_files, Env.bind, Env.print.
  destruct (Env.for_loop _ listing 0%nat w) as [[n|e] w1]; cbn [snd] in *;
    [|done].
  destruct (Env.print_error w1 _); cbn; [done|].
  by destruct (Env.print_error w1 _).
Qed.

Lemma env_run_frame p listing newline_type w :
  Env.entries (Env.final_world p listing newline_type w) = Env.entries w
  ∧ ∀ i,
      Env.store (Env.final_world p listing newline_type w) !! i
      = Env.store w !! i
      ∨ ((∃ name, name ∈ listing ∧ Env.selected w name = true
                  ∧ Env.entries w !! name = Some (Env.Ref i))
         ∧ ∃ f bs,
             Env.store w !! i = Some f
             ∧ Env.store (Env.final_world p listing newline_type w) !! i
               = Some (with_content f bs)).
Proof.
  destruct (env_final_world_frame p listing newline_type w) as [Hent Hst].
  pose proof (env_for_loop_frame (resolve_newline p newline_type) listing
                0%nat w) as (_ & _ & _ & Hframe).
  rewrite Hst. by split.
Qed.

(** X4: whatever the environment and the listing, and whether the run
    returns or is aborted by a print, a run leaves the names of the
    directory as they are: it creates no entry, removes none, and a
    subdirectory entry stays what it was. It creates and removes no
    file. A file keeps how it opens; its bytes differ only if a
    name of the listing that is selected leads to it, be the file
    in the directory or, through a link, anywhere else. *)
Theorem env_run_keeps_entries p listing newline_type w :
  Env.entries (Env.final_world p listing newline_type w) = Env.entries w
  ∧ dom (Env.store (Env.final_world p listing newline_type w))
    = dom (Env.store w)
  ∧ ∀ i,
      Env.store (Env.final_world p listing newline_type w) !! i
      = Env.store w !! i
      ∨ ((∃ name, name ∈ listing ∧ Env.selected w name = true
                  ∧ Env.entries w !! name = Some (Env.Ref i))
         ∧ ∃ f bs,
             Env.store w !! i = Some f
             ∧ Env.store (Env.final_world p listing newline_type w) !! i
               = Some (with_content f bs)).
Proof.
  destruct (env_run_frame p listing newline_type w) as [Hent Hframe].
  split_and!; [done| |done].
  apply set_eq. intros i. rewrite !elem_of_dom.
  destruct (Hframe i) as [->|(_ & f & bs & -> & ->)]; [done|].
  split; by eexists.
Qed.

(** ** The claims that depend on the environment *)

(** C4 as stated fails: a file that does not open for reading, on a
    console that cannot encode the program's messages. The error is
    caught, the print of the handler raises outside the [try], the run
    ends with that exception, nothing is on the console and the next file
    of the listing, a candidate, is never looked at. *)
Lemma print_failure_aborts_run :
  Env.run_outcome posix ["locked.txt"; "b.md"]%string "lf"
    narrow_console_directory
  = Raise UnicodeEncodeError
  ∧ Env.stdout (Env.final_world posix ["locked.txt"; "b.md"]%string "lf"
                  narrow_console_directory) = []
  ∧ Env.bytes_at (Env.final_world posix ["locked.txt"; "b.md"]%string "lf"
                    narrow_console_directory) "b.md"
    = Some [x62]
  ∧ Env.selected narrow_console_directory "b.md" = true.
Proof. split_and!; reflexivity. Qed.

Lemma env_for_loop_cons nl filename rest n w :
  Env.for_loop nl (filename :: rest) n w
  = match Env.iteration nl filename n w with
    | (Return n1, w1) => Env.for_loop nl rest n1 w1
    | (Raise e, w1) => (Raise e, w1)
    end.
Proof. reflexivity. Qed.

(** C4, amended: an [OSError] raised when a candidate file is opened for
    reading, opened for writing after it was read, or written after it
    was truncated, is caught, and the handler prints the error line with
    the file's name and the error's message. When the console takes that
    line, the loop goes on with the next name and the same counter; the
    file is untouched by a failed open and is left with the bytes that
    reached it by a failed write. When the console refuses the line, the
    exception of the print ends the loop. A run over any listing returns
    if the console takes every line. *)
Theorem env_file_errors_caught nl filename rest n w i f msg :
  Env.resolve w filename = Some (i, f) →
  has_text_extension filename = true →
  (read_error f = Some msg
   ∨ (read_error f = None ∧ is_Some (utf8_decode (content f))
      ∧ write_error f = Some msg) →
   (Env.print_error w (MsgError filename msg) = None →
    Env.iteration nl filename n w
    = (Return n, Env.with_line w (MsgError filename msg))
    ∧ Env.for_loop nl (filename :: rest) n w
      = Env.for_loop nl rest n (Env.with_line w (MsgError filename msg)))
   ∧ (∀ pf, Env.print_error w (MsgError filename msg) = Some pf →
        Env.for_loop nl (filename :: rest) n w
        = (Raise (Env.exn_of_print_failure pf), w)))
  ∧ (∀ t bs k,
       read_error f = None → utf8_decode (content f) = Some t →
       write_error f = None →
       utf8_encode (nl ++ nl ++ universal_newlines t) = Some bs →
       Env.late_write_error w i = Some (msg, k) →
       Env.print_error w (MsgError filename msg) = None →
       Env.iteration nl filename n w
       = (Return n,
          Env.with_line
            (Env.set_store w (<[i := with_content f (take k bs)]>
                                (Env.store w)))
            (MsgError filename msg))
       ∧ Env.for_loop nl (filename :: rest) n w
         = Env.for_loop nl rest n
             (Env.with_line
                (Env.set_store w (<[i := with_content f (take k bs)]>
                                    (Env.store w)))
                (MsgError filename msg)))
  ∧ (∀ p listing newline_type g,
       Env.console_accepts g →
       ∃ g', Env.insert_lines_to_files p listing newline_type g
             = (Return tt, g')).
Proof.
  intros Hres Hext.
  assert (Hent : Env.entries w !! filename = Some (Env.Ref i)
                 ∧ Env.store w !! i = Some f).
  { unfold Env.resolve in Hres.
    destruct (Env.entries w !! filename) as [[j| |]|]; try done.
    destruct (Env.store w !! j) as [f'|] eqn:Hst; [|done].
    by injection Hres as -> ->. }
  destruct Hent as [Hent Hst].
  assert (Hstart : Env.iteration nl filename n w
                   = Env.try_except (Env.try_body nl filename n)
                                    (Env.handlers filename n) w).
  { unfold Env.iteration, Env.bind, Env.os_path_isfile.
    by rewrite Hres, Hext. }
  split_and!.
  - intros Herr.
    assert (Hbody : Env.try_body nl filename n w = (Raise (OSError msg), w)).
    { unfold Env.try_body, Env.bind, Env.read_text, Env.write_text.
      rewrite Hent, Hst.
      destruct Herr as [Hr|(Hr & [t Hd] & Hw)].
      - by rewrite Hr.
      - by rewrite Hr, Hd, Hent, Hst, Hw. }
    split.
    + intros Hpr.
      assert (Hit : Env.iteration nl filename n w
                    = (Return n, Env.with_line w (MsgError filename msg))).
      { rewrite Hstart. unfold Env.try_except. rewrite Hbody.
        unfold Env.handlers, Env.bind, Env.print. cbn [str_exn].
        by rewrite Hpr. }
      split; [done|]. by rewrite env_for_loop_cons, Hit.
    + intros pf Hpr. rewrite env_for_loop_cons, Hstart.
      unfold Env.try_except. rewrite Hbody.
      unfold Env.handlers, Env.bind, Env.print. cbn [str_exn].
      by rewrite Hpr.
  - intros t bs k Hr Hd Hw He Hl Hpr.
    assert (Hit : Env.iteration nl filename n w
                  = (Return n,
                     Env.with_line
                       (Env.set_store w
                          (<[i := with_content f (take k bs)]> (Env.store w)))
                       (MsgError filename msg))).
    { rewrite Hstart.
      unfold Env.try_except, Env.try_body, Env.bind, Env.read_text,
        Env.write_text, Env.write_open, line1, line2.
      rewrite Hent, Hst, Hr, Hd, Hent, Hst, Hw. cbn [app].
      rewrite He, Hl.
      unfold Env.handlers, Env.bind, Env.print. cbn [str_exn].
      cbn. by rewrite Hpr. }
    split; [done|]. by rewrite env_for_loop_cons, Hit.
  - intros p listing newline_type g. apply env_insert_lines_returns.
Qed.

Lemma env_file_errors_caught_witness :
  Env.for_loop [LF] ["locked.txt"; "b.md"]%string 0%nat locked_environment
  = Env.for_loop [LF] ["b.md"%string] 0%nat
      (Env.with_line locked_environment
         (MsgError "locked.txt" "Permission denied"))
  ∧ Env.iteration [LF] "a.txt" 0%nat full_disk_environment
    = (Return 0%nat,
       Env.with_line
         (Env.set_store full_disk_environment
            (<[0%nat := plain_file [x0a]]>
               (Env.store full_disk_environment)))
         (MsgError "a.txt" "No space left on device")).
Proof.
  split.
  - destruct (env_file_errors_caught [LF] "locked.txt"%string
                ["b.md"%string] 0%nat locked_environment 0%nat locked_file
                "Permission denied"%string) as (Hopen & _).
    + reflexivity.
    + reflexivity.
    + destruct Hopen as [Hok _]; [left; reflexivity|].
      destruct Hok as [_ Hloop]; [reflexivity|exact Hloop].
  - destruct (env_file_errors_caught [LF] "a.txt"%string
                ["b.md"%string] 0%nat full_disk_environment 0%nat
                (plain_file [x68; x69]) "No space left on device"%string)
      as (_ & Hlate & _).
    + reflexivity.
    + reflexivity.
    + destruct (Hlate [104; 105] [x0a; x0a; x68; x69] 1%nat)
        as [Hit _]; [reflexivity..|].
      exact Hit.
Defined.

(** C6 as stated fails where names are links. The symbolic link link.txt
    leads to the file inner.txt of the subdirectory sub, and the run
    rewrites that file; data.csv, whose name is not allow-listed, is a
    second name of the file a.txt, and its bytes change with it. *)
Lemma links_reach_other_files :
  Env.bytes_below linked_directory "sub" "inner.txt" = Some [x78]
  ∧ Env.bytes_below
      (Env.final_world posix ["a.txt"; "data.csv"; "link.txt"; "sub"]%string
         "lf" linked_directory) "sub" "inner.txt"
    = Some [x0a; x0a; x78]
  ∧ has_text_extension "data.csv" = false
  ∧ Env.bytes_at linked_directory "data.csv" = Some [x68; x69]
  ∧ Env.bytes_at
      (Env.final_world posix ["a.txt"; "data.csv"; "link.txt"; "sub"]%string
         "lf" linked_directory) "data.csv"
    = Some [x0a; x0a; x68; x69].
Proof. split_and!; reflexivity. Qed.

Lemma env_iteration_not_selected nl filename n w :
  Env.selected w filename = false →
  Env.iteration nl filename n w = (Return n, w).
Proof.
  unfold Env.selected, Env.iteration, Env.bind, Env.os_path_isfile.
  destruct (Env.resolve w filename); [|done]. cbn [negb]. by intros ->.
Qed.

Lemma env_for_loop_none_selected nl listing n w :
  (∀ name, name ∈ listing → Env.selected w name = false) →
  Env.for_loop nl listing n w = (Return n, w).
Proof.
  induction listing as [|a rest IH]; intros Hnone; [done|].
  rewrite env_for_loop_cons, env_iteration_not_selected by (apply Hnone; left).
  apply IH. intros name Hin. apply Hnone. by right.
Qed.

Lemma env_reported_totals_printed nl w listing :
  reported_totals
    (flat_map (λ name, Env.printed (Env.effect_of nl name w)) listing) = [].
Proof.
  unfold reported_totals. induction listing as [|a l IH]; [done|].
  cbn [flat_map]. rewrite omap_app, IH, app_nil_r.
  unfold Env.effect_of, Env.quiet. repeat case_match; reflexivity.
Qed.

Lemma env_processed_total_count p listing newline_type w :
  NoDup listing → Env.console_accepts w → Env.link_free w listing →
  Env.processed_total p listing newline_type w
  = Some (length (List.filter
            (λ name,
               Env.counted
                 (Env.effect_of (resolve_newline p newline_type) name w))
            listing)).
Proof.
  intros Hnodup Hcon Hfree. unfold Env.processed_total, Env.final_world.
  destruct (env_run_effect p listing newline_type w Hnodup Hcon Hfree)
    as (w' & -> & _ & _ & _ & Hout). cbn [snd]. rewrite Hout.
  unfold reported_totals. rewrite !omap_app.
  fold (reported_totals
          (flat_map (λ name,
             Env.printed
               (Env.effect_of (resolve_newline p newline_type) name w))
             listing)).
  rewrite env_reported_totals_printed. cbn [app]. apply last_snoc.
Qed.

(** C6, amended: when no name of the listing is selected, the run changes
    no file and no entry, and on a console that takes every line it
    reports a total of 0. A subdirectory is never listed or entered: its
    entry stays what it was, and the bytes of a file, below a
    subdirectory or anywhere else, differ after the run only if a
    selected name of the listing leads to that file. In a directory of
    two names, a candidate text file and a name that is not allow-listed
    and is no other name of that file, the run rewrites the first file,
    changes nothing else and reports a total of 1, in either listing
    order. *)
Theorem env_only_candidates_written p listing newline_type w :
  ((∀ name, name ∈ listing → Env.selected w name = false) →
   Env.store (Env.final_world p listing newline_type w) = Env.store w
   ∧ Env.entries (Env.final_world p listing newline_type w) = Env.entries w
   ∧ (Env.console_accepts w →
      Env.processed_total p listing newline_type w = Some 0%nat))
  ∧ (∀ name children,
       Env.entries w !! name = Some (Env.Subdir children) →
       Env.entries (Env.final_world p listing newline_type w) !! name
       = Some (Env.Subdir children))
  ∧ (∀ i,
       Env.store (Env.final_world p listing newline_type w) !! i
       ≠ Env.store w !! i →
       ∃ name, name ∈ listing ∧ Env.selected w name = true
               ∧ Env.entries w !! name = Some (Env.Ref i))
  ∧ (∀ a b ia fa eb t,
       Env.entries w = {[a := Env.Ref ia; b := eb]} → a ≠ b →
       eb ≠ Env.Ref ia →
       listing ≡ₚ [a; b] →
       Env.console_accepts w →
       has_text_extension a = true → has_text_extension b = false →
       Env.store w !! ia = Some fa →
       read_error fa = None → write_error fa = None →
       utf8_decode (content fa) = Some t →
       Env.late_write_error w ia = None →
       ∃ bs,
         utf8_encode (resolve_newline p newline_type
                      ++ resolve_newline p newline_type
                      ++ universal_newlines t) = Some bs
         ∧ Env.store (Env.final_world p listing newline_type w)
           = <[ia := with_content fa bs]> (Env.store w)
         ∧ Env.entries (Env.final_world p listing newline_type w)
           = Env.entries w
         ∧ Env.processed_total p listing newline_type w = Some 1%nat).
Proof.
  destruct (env_run_frame p listing newline_type w) as (Hent & Hframe).
  split_and!.
  - intros Hnone. split_and!; [|done|].
    + apply map_eq. intros i.
      destruct (Hframe i) as [?|[(name & Hin & Hsel & _) _]]; [done|].
      by rewrite Hnone in Hsel.
    + intros Hcon.
      unfold Env.processed_total, Env.final_world,
        Env.insert_lines_to_files, Env.bind.
      rewrite env_for_loop_none_selected by done.
      unfold Env.print. rewrite Hcon. cbn. rewrite Hcon. cbn.
      unfold Env.with_line, reported_totals. cbn [Env.stdout].
      rewrite !omap_app. cbn [omap list_omap]. rewrite app_nil_r.
      apply last_snoc.
  - intros name children Hname. by rewrite Hent.
  - intros i Hne. by destruct (Hframe i) as [?|[? _]].
  - intros a b ia fa eb t Hentries Hab Heb Hperm Hcon Hexta Hextb Hst
      Hr Hw Hd Hl.
    assert (Hnodup : NoDup listing).
    { rewrite Hperm. apply NoDup_cons. split; [|apply NoDup_singleton].
      by intros ?%list_elem_of_singleton. }
    assert (Ha : Env.entries w !! a = Some (Env.Ref ia)).
    { by rewrite Hentries, lookup_insert_eq. }
    assert (Hb : Env.entries w !! b = Some eb).
    { rewrite Hentries, lookup_insert_ne by done.
      by rewrite lookup_singleton_eq. }
    assert (Hin : ∀ name, name ∈ listing ↔ name = a ∨ name = b).
    { intros name. rewrite Hperm, !elem_of_cons, elem_of_nil. tauto. }
    assert (Hfree : Env.link_free w listing).
    { intros n1 n2 i [->| ->]%Hin [->| ->]%Hin H1 H2; try done;
        congruence. }
    assert (Hres : Env.resolve w a = Some (ia, fa)).
    { unfold Env.resolve. by rewrite Ha, Hst. }
    destruct (new_content_encodes p newline_type _ _ Hd) as [bs He].
    assert (Heffa : Env.effect_of (resolve_newline p newline_type) a w
                    = {| Env.written := Some (ia, with_content fa bs);
                         Env.printed :=
                           [MsgProcessed a
                              (newline_label
                                 (resolve_newline p newline_type))];
                         Env.counted := true |}).
    { unfold Env.effect_of. by rewrite Hres, Hexta, Hr, Hd, Hw, He, Hl. }
    assert (Heffb : Env.effect_of (resolve_newline p newline_type) b w
                    = Env.quiet []).
    { unfold Env.effect_of. rewrite Hextb.
      by destruct (Env.resolve w b) as [[? ?]|]. }
    exists bs. split_and!; [done| |done|].
    + unfold Env.final_world.
      destruct (env_run_effect p listing newline_type w Hnodup Hcon Hfree)
        as (w' & -> & _ & Hwritten & Hother & _). cbn [snd].
      apply map_eq. intros i. destruct (decide (i = ia)) as [->|Hne].
      * rewrite lookup_insert_eq. apply (Hwritten a); [by apply Hin; left|].
        by rewrite Heffa.
      * rewrite lookup_insert_ne by done. apply Hother.
        intros name f' [->| ->]%Hin; [rewrite Heffa|by rewrite Heffb].
        cbn [Env.written]. congruence.
    + rewrite env_processed_total_count by done. f_equal.
      apply Permutation_sym, Permutation_length_2_inv in Hperm as [->| ->];
        cbn [List.filter]; by rewrite Heffa, Heffb.
Qed.

Lemma env_only_candidates_written_witness :
  Env.entries
    (Env.final_world posix ["a.txt"; "data.csv"; "link.txt"; "sub"]%string
       "lf" linked_directory) !! "sub"%string
  = Some (Env.Subdir [("inner.txt"%string, Env.Ref 1%nat)])
  ∧ Env.store (Env.final_world posix ["data.csv"; "a.txt"]%string "lf"
                 pair_environment)
    = <[0%nat := plain_file [x0a; x0a; x68; x69]]>
        (Env.store pair_environment)
  ∧ Env.processed_total posix ["data.csv"; "a.txt"]%string "lf"
      pair_environment = Some 1%nat.
Proof.
  split.
  - destruct (env_only_candidates_written posix
                ["a.txt"; "data.csv"; "link.txt"; "sub"]%string "lf"
                linked_directory) as (_ & Hsub & _).
    apply Hsub. reflexivity.
  - destruct (env_only_candidates_written posix
                ["data.csv"; "a.txt"]%string "lf" pair_environment)
      as (_ & _ & _ & Hpair).
    destruct (Hpair "a.txt"%string "data.csv"%string 0%nat
                (plain_file [x68; x69]) (Env.Ref 1%nat) [104; 105])
      as (bs & He & Hstore & _ & Htotal).
    + reflexivity.
    + discriminate.
    + discriminate.
    + apply perm_swap.
    + intros m. reflexivity.
    + reflexivity.
    + reflexivity.
    + reflexivity.
    + reflexivity.
    + reflexivity.
    + reflexivity.
    + reflexivity.
    + vm_compute in He. injection He as <-. split; [exact Hstore|exact Htotal].
Defined.

(** C9: [insert_lines_to_files] turns no newline policy down. For every
    value other than the exact strings lf and crlf the terminator is the
    separator of the host; the run is, in every environment, the run
    under system; it returns where the console takes every line; and
    every candidate file that opens, decodes and takes its bytes is
    rewritten with the separator of the host twice in front of what was
    read. Only the command-line parser refuses a value outside lf, crlf
    and system. *)
Theorem any_newline_type_accepted p listing newline_type w :
  newline_type ≠ "lf"%string → newline_type ≠ "crlf"%string →
  resolve_newline p newline_type = os_linesep p
  ∧ Env.insert_lines_to_files p listing newline_type w
    = Env.insert_lines_to_files p listing "system" w
  ∧ (Env.console_accepts w →
     ∃ w', Env.insert_lines_to_files p listing newline_type w
           = (Return tt, w'))
  ∧ (NoDup listing → Env.console_accepts w → Env.link_free w listing →
     ∀ filename i f t,
       filename ∈ listing →
       Env.resolve w filename = Some (i, f) →
       has_text_extension filename = true →
       read_error f = None → write_error f = None →
       utf8_decode (content f) = Some t →
       Env.late_write_error w i = None →
       ∃ bs,
         utf8_encode (os_linesep p ++ os_linesep p ++ universal_newlines t)
         = Some bs
         ∧ Env.store (Env.final_world p listing newline_type w) !! i
           = Some (with_content f bs))
  ∧ (parse_newline (Some newline_type) = None
     ↔ newline_type ≠ "system"%string)
  ∧ (∀ v, is_Some (parse_newline (Some v))
          ↔ v = "lf"%string ∨ v = "crlf"%string ∨ v = "system"%string).
Proof.
  intros Hlf Hcrlf.
  assert (Hnl : resolve_newline p newline_type = os_linesep p)
    by by apply resolve_newline_other.
  split_and!.
  - done.
  - unfold Env.insert_lines_to_files. rewrite Hnl. reflexivity.
  - apply env_insert_lines_returns.
  - intros Hnodup Hcon Hfree filename i f t Hin Hres Hext Hr Hw Hd Hl.
    rewrite <- Hnl. by eapply env_run_rewrites.
  - rewrite eq_None_not_Some, parse_newline_accepts.
    unfold newline_choices. rewrite !elem_of_cons, elem_of_nil. tauto.
  - intros v. rewrite parse_newline_accepts.
    unfold newline_choices. rewrite !elem_of_cons, elem_of_nil. tauto.
Qed.

Lemma any_newline_type_accepted_witness :
  resolve_newline nt "LF" = [CR; LF]
  ∧ Env.store (Env.final_world nt ["a.txt"; "data.csv"]%string "LF"
                 pair_environment) !! 0%nat
    = Some (plain_file [x0d; x0a; x0d; x0a; x68; x69])
  ∧ parse_newline (Some "LF"%string) = None.
Proof.
  destruct (any_newline_type_accepted nt ["a.txt"; "data.csv"]%string "LF"
              pair_environment) as (Hnl & _ & _ & Hfile & Hparse & _).
  - discriminate.
  - discriminate.
  - split_and!; [exact Hnl| |apply (proj2 Hparse); discriminate].
    destruct (Hfile) with (filename := "a.txt"%string) (i := 0%nat)
      (f := plain_file [x68; x69]) (t := [104; 105]) as (bs & He & Hst).
    + apply (bool_decide_unpack _). vm_compute. exact I.
    + intros m. reflexivity.
    + intros n1 n2 i
        [->|[->|?%not_elem_of_nil]%elem_of_cons]%elem_of_cons
        [->|[->|?%not_elem_of_nil]%elem_of_cons]%elem_of_cons H1 H2;
        try done; vm_compute in H1, H2; congruence.
    + left.
    + reflexivity.
    + reflexivity.
    + reflexivity.
    + reflexivity.
    + reflexivity.
    + reflexivity.
    + vm_compute in He. injection He as <-. exact Hst.
Defined.

(** ** Further properties in the full environment *)

Lemma env_written_spec p newline_type filename w i f' :
  Env.written (Env.effect_of (resolve_newline p newline_type) filename w)
  = Some (i, f') →
  ∃ f, Env.resolve w filename = Some (i, f)
       ∧ has_text_extension filename = true
       ∧ read_error f = None ∧ write_error f = None
       ∧ is_Some (utf8_decode (content f)).
Proof.
  unfold Env.effect_of.
  destruct (Env.resolve w filename) as [[j f]|]; [|done].
  destruct (has_text_extension filename); [|done].
  destruct (read_error f) eqn:Hr; [done|].
  destruct (utf8_decode (content f)) as [t|] eqn:Hd; [|done].
  destruct (write_error f) eqn:Hw; [done|].
  destruct (new_content_encodes p newline_type _ _ Hd) as [bs ->].
  destruct (Env.late_write_error w j) as [[msg k]|];
    cbn [Env.written]; intros [= <- _]; exists f; by rewrite Hd.
Qed.

(** X1: where the console takes every line and no two names of a
    duplicate-free listing lead to the same file, a run changes the bytes
    of a file only if a candidate name of the listing leads to it that
    opens for reading and for writing and decodes; and it does change the
    bytes of every such file that takes all it is given. *)
Theorem env_changed_iff_processable p listing newline_type w :
  NoDup listing → Env.console_accepts w → Env.link_free w listing →
  (∀ i,
     Env.store (Env.final_world p listing newline_type w) !! i
     ≠ Env.store w !! i →
     ∃ name f,
       name ∈ listing ∧ Env.resolve w name = Some (i, f)
       ∧ has_text_extension name = true
       ∧ read_error f = None ∧ write_error f = None
       ∧ is_Some (utf8_decode (content f)))
  ∧ (∀ name i f,
       name ∈ listing → Env.resolve w name = Some (i, f) →
       has_text_extension name = true →
       read_error f = None → write_error f = None →
       is_Some (utf8_decode (content f)) →
       Env.late_write_error w i = None →
       Env.store (Env.final_world p listing newline_type w) !! i
       ≠ Env.store w !! i).
Proof.
  intros Hnodup Hcon Hfree. split.
  - intros i Hne.
    destruct (env_run_frame p listing newline_type w) as [_ Hframe].
    destruct (Hframe i) as [?|[(name & Hin & Hsel & Hent) _]]; [done|].
    exists name.
    destruct (Env.written
                (Env.effect_of (resolve_newline p newline_type) name w))
      as [[j f']|] eqn:Hwr.
    + pose proof (env_written_resolves _ _ _ _ _ Hwr) as [Hj _].
      assert (j = i) as -> by congruence.
      apply env_written_spec in Hwr as (f & Hres & Hrest). by exists f.
    + exfalso. apply Hne. unfold Env.final_world.
      destruct (env_run_effect p listing newline_type w Hnodup Hcon Hfree)
        as (w' & -> & _ & _ & Hother & _). cbn [snd].
      apply Hother. intros name' f' Hin' Hwr'.
      pose proof (env_written_resolves _ _ _ _ _ Hwr') as [Hent' _].
      assert (name' = name) as -> by by apply (Hfree name' name i).
      congruence.
  - intros name i f Hin Hres Hext Hr Hw [t Hd] Hl.
    destruct (env_run_rewrites p listing newline_type w name i f t
                Hnodup Hcon Hfree Hin Hres Hext Hr Hw Hd Hl)
      as (bs & He & ->).
    assert (Hst : Env.store w !! i = Some f).
    { unfold Env.resolve in Hres.
      destruct (Env.entries w !! name) as [[j| |]|]; try done.
      destruct (Env.store w !! j) as [f0|] eqn:Hst; [|done].
      by injection Hres as -> ->. }
    rewrite Hst. intros [= Heq].
    apply (rewritten_node_differs p newline_type f t bs Hd He).
    by rewrite Heq.
Qed.

Lemma env_changed_iff_processable_witness :
  Env.store (Env.final_world posix ["a.txt"; "data.csv"]%string "lf"
               pair_environment) !! 0%nat
  ≠ Env.store pair_environment !! 0%nat.
Proof.
  destruct (env_changed_iff_processable posix ["a.txt"; "data.csv"]%string
              "lf" pair_environment) as [_ Hchanges].
  - apply (bool_decide_unpack _). vm_compute. exact I.
  - intros m. reflexivity.
  - intros n1 n2 i
      [->|[->|?%not_elem_of_nil]%elem_of_cons]%elem_of_cons
      [->|[->|?%not_elem_of_nil]%elem_of_cons]%elem_of_cons H1 H2;
      try done; vm_compute in H1, H2; congruence.
  - apply (Hchanges "a.txt"%string 0%nat (plain_file [x68; x69]));
      [left|reflexivity..|by eexists|reflexivity].
Defined.

Lemma env_printed_error p newline_type filename w name msg :
  MsgError name msg
  ∈ Env.printed (Env.effect_of (resolve_newline p newline_type) filename w)
  ↔ name = filename
    ∧ ∃ i f,
        Env.resolve w filename = Some (i, f)
        ∧ has_text_extension filename = true
        ∧ (read_error f = Some msg
           ∨ (read_error f = None ∧ is_Some (utf8_decode (content f))
              ∧ (write_error f = Some msg
                 ∨ (write_error f = None
                    ∧ ∃ k, Env.late_write_error w i = Some (msg, k))))).
Proof.
  unfold Env.effect_of.
  destruct (Env.resolve w filename) as [[i f]|];
    cbn [Env.quiet Env.printed];
    [|rewrite elem_of_nil; split; [done|by intros (_ & i & f & ? & _)]].
  destruct (has_text_extension filename); cbn [Env.quiet Env.printed];
    [|rewrite elem_of_nil; split; [done|by intros (_ & ? & ? & _ & ? & _)]].
  destruct (read_error f) as [rmsg|] eqn:Hr; cbn [Env.quiet Env.printed].
  { rewrite list_elem_of_singleton. split.
    - intros [= -> ->]. split; [done|]. exists i, f. eauto.
    - intros (-> & i' & f' & [= <- <-] & _ & [Hr'|(Hr' & _)]); congruence. }
  destruct (utf8_decode (content f)) as [t|] eqn:Hd;
    cbn [Env.quiet Env.printed].
  2:{ rewrite list_elem_of_singleton. split; [done|].
      intros (_ & i' & f' & [= <- <-] & _ & [Hr'|(_ & [t Hd'] & _)]);
        congruence. }
  destruct (write_error f) as [wmsg|] eqn:Hw; cbn [Env.quiet Env.printed].
  { rewrite list_elem_of_singleton. split.
    - intros [= -> ->]. split; [done|]. exists i, f.
      split_and!; [done..|]. right. split_and!; [done|by eexists|by left].
    - intros (-> & i' & f' & [= <- <-] & _
              & [Hr'|(_ & _ & [Hw'|(Hw' & _)])]); congruence. }
  destruct (new_content_encodes p newline_type _ _ Hd) as [bs ->].
  destruct (Env.late_write_error w i) as [[lmsg k]|] eqn:Hl;
    cbn [Env.printed]; rewrite list_elem_of_singleton; split.
  - intros [= -> ->]. split; [done|]. exists i, f.
    split_and!; [done..|]. right. split_and!; [done|by eexists|].
    right. split; [done|]. by exists k.
  - intros (-> & i' & f' & [= <- <-] & _
            & [Hr'|(_ & _ & [Hw'|(_ & k' & Hl')])]); congruence.
  - done.
  - intros (-> & i' & f' & [= <- <-] & _
            & [Hr'|(_ & _ & [Hw'|(_ & k' & Hl')])]); congruence.
Qed.

Lemma env_printed_skipped nl filename w name :
  MsgSkippedNonText name ∈ Env.printed (Env.effect_of nl filename w)
  ↔ name = filename
    ∧ ∃ i f,
        Env.resolve w filename = Some (i, f)
        ∧ has_text_extension filename = true
        ∧ read_error f = None ∧ utf8_decode (content f) = None.
Proof.
  unfold Env.effect_of.
  destruct (Env.resolve w filename) as [[i f]|];
    cbn [Env.quiet Env.printed];
    [|rewrite elem_of_nil; split; [done|by intros (_ & i & f & ? & _)]].
  destruct (has_text_extension filename); cbn [Env.quiet Env.printed];
    [|rewrite elem_of_nil; split; [done|by intros (_ & ? & ? & _ & ? & _)]].
  destruct (read_error f) as [rmsg|] eqn:Hr; cbn [Env.quiet Env.printed].
  { rewrite list_elem_of_singleton. split; [done|].
    intros (_ & i' & f' & [= <- <-] & _ & Hr' & _). congruence. }
  destruct (utf8_decode (content f)) as [t|] eqn:Hd;
    cbn [Env.quiet Env.printed].
  2:{ rewrite list_elem_of_singleton. split.
      - intros [= ->]. split; [done|]. by exists i, f.
      - by intros (-> & _). }
  assert (Hno : ¬ (name = filename
                   ∧ ∃ i' f', Some (i, f) = Some (i', f')
                              ∧ true = true ∧ read_error f' = None
                              ∧ utf8_decode (content f') = None)).
  { intros (_ & i' & f' & [= <- <-] & _ & _ & Hd'). congruence. }
  repeat case_match; cbn [Env.quiet Env.printed];
    rewrite list_elem_of_singleton; split; done.
Qed.

(** X3: where the console takes every line and no two names of a
    duplicate-free listing lead to the same file, the error lines and the
    non-text lines of a run are accurate. An error line for a name with a
    message is printed exactly when the name is a candidate file of the
    listing and that message was raised by opening it for reading, or,
    once it was read and decoded, by opening it for writing or by
    writing it after it was truncated. A non-text line is printed exactly
    for the candidate files of the listing that open for reading and do
    not decode. *)
Theorem env_error_lines_accurate p listing newline_type w :
  NoDup listing → Env.console_accepts w → Env.link_free w listing →
  ∃ out total label,
    Env.stdout (Env.final_world p listing newline_type w)
    = Env.stdout w ++ out ++ [MsgFinished total; MsgNewlineUsed label]
    ∧ (∀ name msg,
         MsgError name msg ∈ out
         ↔ name ∈ listing
           ∧ ∃ i f,
               Env.resolve w name = Some (i, f)
               ∧ has_text_extension name = true
               ∧ (read_error f = Some msg
                  ∨ (read_error f = None
                     ∧ is_Some (utf8_decode (content f))
                     ∧ (write_error f = Some msg
                        ∨ (write_error f = None
                           ∧ ∃ k, Env.late_write_error w i
                                  = Some (msg, k))))))
    ∧ (∀ name,
         MsgSkippedNonText name ∈ out
         ↔ name ∈ listing
           ∧ ∃ i f,
               Env.resolve w name = Some (i, f)
               ∧ has_text_extension name = true
               ∧ read_error f = None
               ∧ utf8_decode (content f) = None).
Proof.
  intros Hnodup Hcon Hfree. unfold Env.final_world.
  destruct (env_run_effect p listing newline_type w Hnodup Hcon Hfree)
    as (w' & -> & _ & _ & _ & Hout). cbn [snd].
  eexists _, _, _. split_and!; [exact Hout| |].
  - intros name msg. rewrite list_elem_of_In, in_flat_map. split.
    + intros (name' & Hin%list_elem_of_In
              & (-> & Hrest)%list_elem_of_In%env_printed_error). done.
    + intros (Hin & Hrest). exists name.
      rewrite <- !list_elem_of_In. split; [done|].
      by apply env_printed_error.
  - intros name. rewrite list_elem_of_In, in_flat_map. split.
    + intros (name' & Hin%list_elem_of_In
              & (-> & Hrest)%list_elem_of_In%env_printed_skipped). done.
    + intros (Hin & Hrest). exists name.
      rewrite <- !list_elem_of_In. split; [done|].
      by apply env_printed_skipped.
Qed.

Lemma env_error_lines_accurate_witness :
  Env.stdout (Env.final_world posix ["a.txt"; "b.md"]%string "lf"
                full_disk_environment)
  = [MsgError "a.txt" "No space left on device"; MsgProcessed "b.md" "LF";
     MsgFinished 1; MsgNewlineUsed "LF (\n)"].
Proof.
  destruct (env_error_lines_accurate posix ["a.txt"; "b.md"]%string "lf"
              full_disk_environment) as (out & total & label & Hout & _).
  - apply (bool_decide_unpack _). vm_compute. exact I.
  - intros m. reflexivity.
  - intros n1 n2 i
      [->|[->|?%not_elem_of_nil]%elem_of_cons]%elem_of_cons
      [->|[->|?%not_elem_of_nil]%elem_of_cons]%elem_of_cons H1 H2;
      try done; vm_compute in H1, H2; congruence.
  - reflexivity.
Defined.

(** ** The plain environment is the full one without links, console
    failures and late write failures *)

Lemma plain_effect_agrees nl filename g w :
  plain_environment g → plain_view g w →
  counted (effect_of nl filename (files w !! filename))
  = Env.counted (Env.effect_of nl filename g)
  ∧ printed (effect_of nl filename (files w !! filename))
    = Env.printed (Env.effect_of nl filename g)
  ∧ match Env.written (Env.effect_of nl filename g) with
    | Some (i, f') =>
      Env.entries g !! filename = Some (Env.Ref i)
      ∧ node_after (effect_of nl filename (files w !! filename))
        = Some (Regular f')
    | None =>
      node_after (effect_of nl filename (files w !! filename))
      = files w !! filename
    end.
Proof.
  intros (_ & Hlate & _) [_ Hview]. specialize (Hview filename).
  unfold Env.effect_of, Env.resolve, effect_of, views in *.
  destruct (Env.entries g !! filename) as [[i| |]|],
    (files w !! filename) as [[f| |]|]; try done.
  - rewrite Hview, Hlate. unfold unchanged, Env.quiet.
    repeat case_match; cbn in *; by simplify_eq.
  - by rewrite Hview.
Qed.

Lemma plain_iteration_simulates nl filename n g w :
  plain_environment g → plain_view g w →
  ∃ n' g' w',
    Env.iteration nl filename n g = (Return n', g')
    ∧ iteration nl filename n w = (Return n', w')
    ∧ plain_environment g' ∧ plain_view g' w'.
Proof.
  intros Hplain Hview.
  destruct (plain_effect_agrees nl filename g w Hplain Hview)
    as (Hc & Hp & Hw).
  destruct Hplain as (Hcon & Hlate & Hinj).
  destruct (iteration_effect nl filename n w) as (w' & Hit & Hfiles & Hout).
  eexists _, _, w'.
  split_and!; [by apply env_iteration_effect|by rewrite Hit, Hc|done|].
  destruct Hview as [Hstd Hview]. split.
  { rewrite Hout, Hp, Hstd. done. }
  intros name. rewrite Hfiles. unfold Env.apply_effect.
  cbn [Env.store Env.entries]. specialize (Hview name).
  destruct (Env.written (Env.effect_of nl filename g)) as [[i f']|] eqn:Hwr.
  - destruct Hw as [Hent Hnode].
    destruct (decide (name = filename)) as [->|Hne].
    + rewrite Hnode, Hent. cbn [views]. apply lookup_insert_eq.
    + unfold views in *.
      destruct (Env.entries g !! name) as [[j| |]|] eqn:Hj; try done.
      rewrite lookup_insert_ne; [done|]. intros ->.
      apply Hne. by apply (Hinj name filename j).
  - destruct (decide (name = filename)) as [->|Hne]; [by rewrite Hw|done].
Qed.

(** A loop in an environment without links, console failures and late
    write failures returns, and the plain loop over the view of that
    environment returns the same counter and leaves the view of what the
    full loop leaves. *)
Lemma plain_for_loop_simulates nl listing :
  ∀ n g w,
    plain_environment g → plain_view g w →
    ∃ n' g' w',
      Env.for_loop nl listing n g = (Return n', g')
      ∧ for_loop nl listing n w = (Return n', w')
      ∧ plain_environment g' ∧ plain_view g' w'.
Proof.
  induction listing as [|filename rest IH]; intros n g w Hplain Hview.
  { by exists n, g, w. }
  destruct (plain_iteration_simulates nl filename n g w Hplain Hview)
    as (n1 & g1 & w1 & Hg & Hw & Hplain1 & Hview1).
  destruct (IH n1 g1 w1 Hplain1 Hview1)
    as (n' & g' & w' & Hg' & Hw' & Hplain' & Hview').
  exists n', g', w'. split_and!; [| |done|done].
  - by rewrite env_for_loop_cons, Hg.
  - cbn [for_loop]. unfold bind at 1. by rewrite Hw.
Qed.

Lemma plain_run_simulates p listing newline_type g w :
  plain_environment g → plain_view g w →
  ∃ g' w',
    Env.insert_lines_to_files p listing newline_type g = (Return tt, g')
    ∧ insert_lines_to_files p listing newline_type w = (Return tt, w')
    ∧ plain_view g' w'.
Proof.
  intros Hplain Hview.
  destruct (plain_for_loop_simulates (resolve_newline p newline_type)
              listing 0%nat g w Hplain Hview)
    as (n & g1 & w1 & Hg & Hw & (Hcon & _) & [Hstd Hfiles]).
  unfold Env.insert_lines_to_files, insert_lines_to_files, Env.bind, bind.
  rewrite Hg, Hw. unfold Env.print, print. cbn.
  rewrite Hcon. cbn. rewrite Hcon. eexists _, _.
  split_and!; [done|done|]. split; [|done].
  cbn. by rewrite Hstd, <- app_assoc.
Qed.
